(** * Reviewer balancing engine of devopshelper (package autoreviewer)

    A shallow embedding of [pkg/autoreviewer/autoreviewer.go] and of the
    manager loop that drives it, together with the properties of the filter
    pipeline, the ownership resolution, the reviewer selection and the
    idempotency guard.

    Conventions of the embedding.
    - A Go pointer that the source tests against [nil] is an [option]; a
      pointer that the source dereferences unconditionally is the value it
      points to (the source assumes the platform populated it).
    - A Go call returning [(T, error)] whose result is only used after
      [err != nil] was ruled out is a sum [error + T]; where the source looks
      at both components independently it is a pair of options.
    - A Go [map[string]bool] is a [gmap string bool]; a [range] over a map
      enumerates its keys in an order chosen by the runtime, which is a
      parameter of the development ([rangeKeys]).
    - Every call that leaves the process (platform, stores, hooks) is a
      function on an abstract world and is recorded in a trace of events;
      the logger is not modelled.
    - [panic] is an outcome of its own, distinct from a returned error. *)

From stdpp Require Import base option list strings gmap fin_maps.
From Stdlib Require Import ZArith NArith Ascii String.

Open Scope string_scope.
Open Scope list_scope.

(** ** Errors *)

Inductive fmtArg : Type :=
| ArgStr (s : string)
| ArgInt (n : Z)
| ArgStrs (l : list string).

(** [ErrNotFound] is the sentinel [store.ErrNotFound]; [ErrOther] is any other
    leaf error (a transport failure). [Wrap] keeps its cause in the chain
    ([errors.Wrap], [errors.Wrapf], [fmt.Errorf] with [%w]); [Errorf] formats
    the cause into a fresh message ([fmt.Errorf] with [%v]). *)
Inductive error : Type :=
| ErrNotFound
| ErrOther (msg : string)
| Wrap (cause : error) (format : string) (args : list fmtArg)
| Errorf (format : string) (args : list fmtArg) (cause : error).

(** [errors.Is(err, store.ErrNotFound)]: follows the chain of wrapped causes. *)
Fixpoint errors_Is_ErrNotFound (err : error) : bool :=
  match err with
  | ErrNotFound => true
  | Wrap cause _ _ => errors_Is_ErrNotFound cause
  | ErrOther _ | Errorf _ _ _ => false
  end.

(** The test [err != nil && !errors.Is(err, store.ErrNotFound)]. *)
Definition hardError (err : option error) : option error :=
  match err with
  | Some e => if errors_Is_ErrNotFound e then None else Some e
  | None => None
  end.

(** ** Strings *)

Fixpoint HasPrefix (s p : string) : bool :=
  match p, s with
  | EmptyString, _ => true
  | String _ _, EmptyString => false
  | String b p', String a s' => if Ascii.eqb a b then HasPrefix s' p' else false
  end.

(** [strings.Contains]: [substr] occurs in [s] as a run of bytes. *)
Fixpoint Contains (s substr : string) : bool :=
  HasPrefix s substr ||
  match s with
  | EmptyString => false
  | String _ s' => Contains s' substr
  end.

Fixpoint Join (elems : list string) (sep : string) : string :=
  match elems with
  | [] => ""
  | [x] => x
  | x :: rest => x +:+ sep +:+ Join rest sep
  end.

Definition CRLF : string := String (ascii_of_nat 13) (String (ascii_of_nat 10) "").

Definition byteOf (c : ascii) : N := N_of_ascii c.

Section EqualFold.
(** The part of [strings.EqualFold] reached once a byte outside ASCII is
    met (label [hasUnicode]); it decodes runes and consults the Unicode
    folding tables of the Go runtime. *)
Variable unicodeEqualFold : string → string → bool.

(** [strings.EqualFold]: the ASCII loop of the Go library, byte by byte. *)
Fixpoint EqualFold (s t : string) : bool :=
  match s, t with
  | String sr s', String tr t' =>
      if (128 <=? N.lor (byteOf sr) (byteOf tr))%N then unicodeEqualFold s t
      else if (byteOf tr =? byteOf sr)%N then EqualFold s' t'
      else
        let lo := N.min (byteOf sr) (byteOf tr) in
        let hi := N.max (byteOf sr) (byteOf tr) in
        if (65 <=? lo)%N && (lo <=? 90)%N && (hi =? lo + 32)%N
        then EqualFold s' t' else false
  | EmptyString, EmptyString => true
  | _, _ => false
  end.
End EqualFold.

(** Case folding restricted to ASCII, as a yardstick for [EqualFold]. *)
Fixpoint isASCII (s : string) : bool :=
  match s with
  | EmptyString => true
  | String c s' => (byteOf c <? 128)%N && isASCII s'
  end.

Definition lowerByte (c : ascii) : ascii :=
  if (65 <=? byteOf c)%N && (byteOf c <=? 90)%N
  then ascii_of_N (byteOf c + 32) else c.

Fixpoint ToLowerASCII (s : string) : string :=
  match s with
  | EmptyString => EmptyString
  | String c s' => String (lowerByte c) (ToLowerASCII s')
  end.

(** ** Data model *)

(** The fields of [adogit.GitPullRequest] that the package reads. *)
Record PullRequest : Type := mkPullRequest {
  PullRequestId : Z;
  RepositoryId : string;
  Title : string;
  IsDraft : option bool;
  TargetRefName : string;
  CreatedById : string;
  CreatedByDisplayName : string;
  Url : string;
}.

Record Reviewer : Type := mkReviewer {
  AdoID : string;
  Alias : string;
}.

Record Team : Type := mkTeam {
  TeamName : string;
  Members : list string;
}.

Record ReviewerGroup : Type := mkReviewerGroup {
  Owners : gmap string bool;
  Teams : gmap string bool;
}.

Record Repository : Type := mkRepository {
  AdoRepoID : string;
  ProjectName : string;
  Name : string;
  Enabled : bool;
  LastReconciled : Z;
}.

Record Comment : Type := mkComment {
  Content : option string;
}.

Record CommentThread : Type := mkThread {
  Comments : list Comment;
}.

(** ** Events and the effect monad *)

Inductive Event : Type :=
| CallGetAllRepositories
| CallReconcile (repo : Repository)
| CallGetPullRequests (repoID project : string)
| CallGetThreads (repoID : string) (prID : Z)
| CallGetRequiredReviewerGroups (prID : Z)
| CallGetReviewerByADOID (id : string)
| CallGetTeam (name : string)
| CallPopLRUReviewer (aliases : list string)
| CallCreatePullRequestReviewer (repoID : string) (prID : Z) (reviewerID : string) (isRequired : bool)
| CallCreateThread (repoID : string) (prID : Z) (content : string)
| CallReviewerTrigger (required optional : list Reviewer) (url : string).

(** The calls that change the pull request on the platform or notify
    somebody: adding a reviewer, posting a comment, firing a hook. *)
Definition isMutation (ev : Event) : bool :=
  match ev with
  | CallCreatePullRequestReviewer _ _ _ _ | CallCreateThread _ _ _
  | CallReviewerTrigger _ _ _ => true
  | _ => false
  end.

(** The calls made while resolving and selecting reviewers. *)
Definition isResolution (ev : Event) : bool :=
  match ev with
  | CallGetRequiredReviewerGroups _ | CallGetReviewerByADOID _
  | CallGetTeam _ | CallPopLRUReviewer _ => true
  | _ => false
  end.

Inductive Res (A : Type) : Type :=
| Ret (a : A)
| Panic (e : error).
Arguments Ret {A} a.
Arguments Panic {A} e.

Record State (W : Type) : Type := mkState {
  world : W;
  trace : list Event;
}.
Arguments mkState {W} world trace.
Arguments world {W} s.
Arguments trace {W} s.

Definition M (W A : Type) : Type := State W → Res A * State W.

Definition ret {W A} (a : A) : M W A := λ st, (Ret a, st).

Definition bind {W A B} (m : M W A) (k : A → M W B) : M W B :=
  λ st, match m st with
        | (Ret a, st') => k a st'
        | (Panic e, st') => (Panic e, st')
        end.

Definition panic {W A} (e : error) : M W A := λ st, (Panic e, st).

(** An external call: the world answers and moves on, the call is logged. *)
Definition call {W A} (ev : Event) (f : W → A * W) : M W A :=
  λ st, let '(a, w') := f (world st) in
        (Ret a, mkState w' (trace st ++ [ev])).

Notation "'do' x <- m ;; k" := (bind m (λ x, k))
  (at level 10, x name, m at level 99, k at level 200, only parsing).
Notation "'do' ' pat <- m ;; k" := (bind m (λ x, match x with pat => k end))
  (at level 10, pat pattern, m at level 99, k at level 200, only parsing).

(** The mutations recorded in a trace. *)
Definition mutations (t : list Event) : list Event := List.filter isMutation t.

(** The resolution and selection calls recorded in a trace. *)
Definition resolutions (t : list Event) : list Event := List.filter isResolution t.

(** ** The interfaces the package consumes *)

(** [adogit.Client], restricted to the methods the package calls. *)
Record GitClient (W : Type) : Type := mkGitClient {
  GetPullRequests : string → string → W → (error + list PullRequest) * W;
  GetThreads : string → Z → W → (error + option (list CommentThread)) * W;
  CreatePullRequestReviewer : string → Z → string → bool → W → option error * W;
  CreateThread : string → Z → string → W → option error * W;
}.
Arguments GetPullRequests {W} g.
Arguments GetThreads {W} g.
Arguments CreatePullRequestReviewer {W} g.
Arguments CreateThread {W} g.

(** [store.ReviewerStore]. *)
Record ReviewerStoreI (W : Type) : Type := mkReviewerStore {
  GetReviewerByADOID : string → W → (option Reviewer * option error) * W;
  PopLRUReviewer : list string → W → (option Reviewer * option error) * W;
}.
Arguments GetReviewerByADOID {W} r.
Arguments PopLRUReviewer {W} r.

(** [store.TeamStore]. *)
Record TeamStoreI (W : Type) : Type := mkTeamStore {
  GetTeam : string → W → (error + Team) * W;
}.
Arguments GetTeam {W} t.

(** [store.RepositoryStore]. *)
Record RepositoryStoreI (W : Type) : Type := mkRepositoryStore {
  GetAllRepositories : W → (error + list Repository) * W;
}.
Arguments GetAllRepositories {W} r.

(** What the package takes from its surroundings besides the client and
    the stores: the order in which the Go runtime enumerates a map, the slow
    path of [strings.EqualFold], the clock, and two methods of this package
    whose source is not part of the development,
    [PullRequest.GetRequiredReviewerGroups] and [AutoReviewer.Reconcile]
    (the latter may refresh the repository record it is given). *)
Record Runtime (W : Type) : Type := mkRuntime {
  rangeKeys : gmap string bool → list string;
  unicodeEqualFold : string → string → bool;
  timeNow : W → Z;
  GetRequiredReviewerGroups : PullRequest → W → (error + list (option ReviewerGroup)) * W;
  Reconcile : Repository → W → (option error * Repository) * W;
}.
Arguments rangeKeys {W} r.
Arguments unicodeEqualFold {W} r.
Arguments timeNow {W} r.
Arguments GetRequiredReviewerGroups {W} r.
Arguments Reconcile {W} r.

(** A [range] over a map visits every key exactly once. *)
Definition RangeSound {W} (rt : Runtime W) : Prop :=
  ∀ m : gmap string bool, rangeKeys rt m ≡ₚ (map_to_list m).*1.

(** ** Filters, triggers and the reviewer itself *)

Definition Filter : Type := PullRequest → bool.

Definition ReviewerTrigger (W : Type) : Type :=
  list Reviewer → list Reviewer → string → W → option error * W.

Record Options (W : Type) : Type := mkOptions {
  Filters : option (list Filter);
  ReviewerTriggers : option (list (ReviewerTrigger W));
}.
Arguments mkOptions {W} Filters ReviewerTriggers.
Arguments Filters {W} o.
Arguments ReviewerTriggers {W} o.

Record AutoReviewer (W : Type) : Type := mkAutoReviewer {
  adoGitClient : GitClient W;
  botIdentifier : string;
  Repo : Repository;
  RepoStore : RepositoryStoreI W;
  ReviewerStore : ReviewerStoreI W;
  TeamStore : TeamStoreI W;
  AROptions : Options W;
}.
Arguments mkAutoReviewer {W}.
Arguments adoGitClient {W} a.
Arguments botIdentifier {W} a.
Arguments Repo {W} a.
Arguments RepoStore {W} a.
Arguments ReviewerStore {W} a.
Arguments TeamStore {W} a.
Arguments AROptions {W} a.

Definition defaultBotIdentifier : string := "b03f5f7f11d50a3a".

Definition filterWIP (pr : PullRequest) : bool :=
  if Contains (Title pr) "WIP" then true else false.

Definition filterDraft (pr : PullRequest) : bool :=
  match IsDraft pr with
  | Some true => true
  | _ => false
  end.

Definition masterRef : string := "refs/heads/master".

Definition filterMasterBranchOnly {W} (rt : Runtime W) (pr : PullRequest) : bool :=
  if EqualFold (unicodeEqualFold rt) (TargetRefName pr) masterRef then false else true.

Definition defaultFilters {W} (rt : Runtime W) : list Filter :=
  [filterWIP; filterMasterBranchOnly rt; filterDraft].

Definition GetReviewersAlias (reviewers : list Reviewer) : list string :=
  map Alias reviewers.

(** ** The package, function by function *)

Section Engine.
Context {W : Type} (rt : Runtime W).

(** [NewAutoReviewer]: a [nil] filter list is replaced by the defaults;
    the error it returns is always [nil]. The identity and core clients are
    stored but not used by the functions below. *)
Definition NewAutoReviewer (adoGitClient : GitClient W) (botIdentifier : string)
    (repo : Repository) (repoStore : RepositoryStoreI W)
    (reviewerStore : ReviewerStoreI W) (teamStore : TeamStoreI W)
    (options : Options W) : AutoReviewer W * option error :=
  let options :=
    match Filters options with
    | None => mkOptions (Some (defaultFilters rt)) (ReviewerTriggers options)
    | Some _ => options
    end in
  (mkAutoReviewer adoGitClient botIdentifier repo repoStore reviewerStore
     teamStore options, None).

Fixpoint filterLoop (filters : list Filter) (pr : PullRequest) : bool :=
  match filters with
  | [] => false
  | filter :: rest => if filter pr then true else filterLoop rest pr
  end.

Definition shouldFilter (a : AutoReviewer W) (pr : PullRequest) : bool :=
  match Filters (AROptions a) with
  | None => false
  | Some filters => filterLoop filters pr
  end.

(** *** Idempotency guard *)

Fixpoint commentsLoop (bot : string) (comments : list Comment) : bool :=
  match comments with
  | [] => false
  | comment :: rest =>
      match Content comment with
      | None => commentsLoop bot rest
      | Some content =>
          if Contains content bot then true else commentsLoop bot rest
      end
  end.

Fixpoint threadsLoop (bot : string) (threads : list CommentThread) : bool :=
  match threads with
  | [] => false
  | thread :: rest =>
      if commentsLoop bot (Comments thread) then true else threadsLoop bot rest
  end.

Definition ContainsReviewBalancerComment (a : AutoReviewer W)
    (repositoryID : string) (pullRequestID : Z) : M W bool :=
  do r <- call (CallGetThreads repositoryID pullRequestID)
               (GetThreads (adoGitClient a) repositoryID pullRequestID);;
  match r with
  | inl err => panic err
  | inr None => ret false
  | inr (Some threads) => ret (threadsLoop (botIdentifier a) threads)
  end.

(** *** Resolution of the candidate pools ([getReviewers], first half) *)

Definition addMembers (requiredTeamMembers : gmap string bool)
    (members : list string) : gmap string bool :=
  foldl (λ m member, <[member:=true]> m) requiredTeamMembers members.

Fixpoint teamsLoop (a : AutoReviewer W) (teamNames : list string)
    (requiredTeamMembers : gmap string bool) : M W (error + gmap string bool) :=
  match teamNames with
  | [] => ret (inr requiredTeamMembers)
  | teamName :: rest =>
      do r <- call (CallGetTeam teamName) (GetTeam (TeamStore a) teamName);;
      match r with
      | inl err => ret (inl (Wrap err "failed to get team %q" [ArgStr teamName]))
      | inr team => teamsLoop a rest (addMembers requiredTeamMembers (Members team))
      end
  end.

Fixpoint ownersLoop (a : AutoReviewer W) (owners : list string)
    (requiredOwners : gmap string bool) : M W (gmap string bool) :=
  match owners with
  | [] => ret requiredOwners
  | owner :: rest =>
      do r <- call (CallGetTeam owner) (GetTeam (TeamStore a) owner);;
      match r with
      | inr _ => ownersLoop a rest requiredOwners
      | inl _ => ownersLoop a rest (<[owner:=true]> requiredOwners)
      end
  end.

Fixpoint groupsLoop (a : AutoReviewer W) (reviewerGroups : list (option ReviewerGroup))
    (requiredOwners requiredTeamMembers : gmap string bool)
    : M W (error + gmap string bool * gmap string bool) :=
  match reviewerGroups with
  | [] => ret (inr (requiredOwners, requiredTeamMembers))
  | None :: rest => groupsLoop a rest requiredOwners requiredTeamMembers
  | Some reviewerGroup :: rest =>
      do r <- teamsLoop a (rangeKeys rt (Teams reviewerGroup)) requiredTeamMembers;;
      match r with
      | inl err => ret (inl err)
      | inr requiredTeamMembers' =>
          do requiredOwners' <-
            ownersLoop a (rangeKeys rt (Owners reviewerGroup)) requiredOwners;;
          groupsLoop a rest requiredOwners' requiredTeamMembers'
      end
  end.

(** "Remove PR creator from reviewer list". *)
Definition removeCreator (prCreator : option Reviewer)
    (requiredOwners requiredTeamMembers : gmap string bool)
    : gmap string bool * gmap string bool :=
  match prCreator with
  | Some c => (delete (Alias c) requiredOwners, delete (Alias c) requiredTeamMembers)
  | None => (requiredOwners, requiredTeamMembers)
  end.

(** "Ensure owners aren't in both groups". *)
Definition dropOwners (requiredOwners requiredTeamMembers : gmap string bool)
    : gmap string bool :=
  foldl (λ m owner, delete owner m) requiredTeamMembers (rangeKeys rt requiredOwners).

(** Lines 155 to 204 of [getReviewers]: the two pools
    [(requiredOwners, requiredTeamMembers)], or the error returned. *)
Definition resolvePools (a : AutoReviewer W) (pr : PullRequest)
    : M W (error + gmap string bool * gmap string bool) :=
  do g <- call (CallGetRequiredReviewerGroups (PullRequestId pr))
               (GetRequiredReviewerGroups rt pr);;
  match g with
  | inl err =>
      ret (inl (Wrap err "failed to get required reviewer groups for PR: %d"
                  [ArgInt (PullRequestId pr)]))
  | inr reviewerGroups =>
      do c <- call (CallGetReviewerByADOID (CreatedById pr))
                   (GetReviewerByADOID (ReviewerStore a) (CreatedById pr));;
      match hardError c.2 with
      | Some err =>
          ret (inl (Wrap err "failed to get pr creator %s from store"
                      [ArgStr (CreatedByDisplayName pr)]))
      | None =>
          do r <- groupsLoop a reviewerGroups ∅ ∅;;
          match r with
          | inl err => ret (inl err)
          | inr (requiredOwners, requiredTeamMembers) =>
              let pools := removeCreator c.1 requiredOwners requiredTeamMembers in
              ret (inr (pools.1, dropOwners pools.1 pools.2))
          end
      end
  end.

(** *** Selection ([getReviewers], second half) *)

(** [getAliases]: the keys whose value is [true], in enumeration order (the
    maps passed to it are never [nil]). *)
Definition getAliases (reviewers : gmap string bool) : list string :=
  List.filter (λ alias, bool_decide (reviewers !! alias = Some true))
    (rangeKeys rt reviewers).

Definition appendReviewer (l : list Reviewer) (r : option Reviewer) : list Reviewer :=
  match r with
  | Some r => l ++ [r]
  | None => l
  end.

(** Lines 206 to 227: one pop per pool, owners first. *)
Definition selectReviewers (a : AutoReviewer W)
    (requiredOwners requiredTeamMembers : gmap string bool)
    : M W (list Reviewer * list Reviewer * option error) :=
  let finalReviewers : list Reviewer := [] in
  let owners := getAliases requiredOwners in
  do o <- call (CallPopLRUReviewer owners) (PopLRUReviewer (ReviewerStore a) owners);;
  match hardError o.2 with
  | Some err =>
      ret ([], [], Some (Wrap err "failed to get owner reviewer for owners: %v"
                           [ArgStrs owners]))
  | None =>
      let finalReviewers := appendReviewer finalReviewers o.1 in
      let teamMembers := getAliases requiredTeamMembers in
      do t <- call (CallPopLRUReviewer teamMembers)
                   (PopLRUReviewer (ReviewerStore a) teamMembers);;
      match hardError t.2 with
      | Some err =>
          ret ([], [], Some (Wrap err "failed to get team reviewer for members: %v"
                               [ArgStrs teamMembers]))
      | None => ret (appendReviewer finalReviewers t.1, [], None)
      end
  end.

Definition getReviewers (a : AutoReviewer W) (pr : PullRequest)
    : M W (list Reviewer * list Reviewer * option error) :=
  do p <- resolvePools a pr;;
  match p with
  | inl err => ret ([], [], Some err)
  | inr (requiredOwners, requiredTeamMembers) =>
      selectReviewers a requiredOwners requiredTeamMembers
  end.
End Engine.

Section Orchestrator.
Context {W : Type} (rt : Runtime W).

(** *** Platform mutations *)

Fixpoint addReviewersLoop (a : AutoReviewer W) (pullRequestID : Z) (repoID : string)
    (isRequired : bool) (format : string) (reviewers : list Reviewer)
    : M W (option error) :=
  match reviewers with
  | [] => ret None
  | reviewer :: rest =>
      do e <- call (CallCreatePullRequestReviewer repoID pullRequestID
                      (AdoID reviewer) isRequired)
                   (CreatePullRequestReviewer (adoGitClient a) repoID pullRequestID
                      (AdoID reviewer) isRequired);;
      match e with
      | Some err => ret (Some (Wrap err format [ArgStr (Alias reviewer)]))
      | None => addReviewersLoop a pullRequestID repoID isRequired format rest
      end
  end.

Definition AddReviewers (a : AutoReviewer W) (pullRequestID : Z) (repoID : string)
    (required optional : list Reviewer) : M W (option error) :=
  do e <- addReviewersLoop a pullRequestID repoID true
            "failed to add required reviewer %s with error %w" required;;
  match e with
  | Some err => ret (Some err)
  | None =>
      addReviewersLoop a pullRequestID repoID false
        "failed to add optional reviewer %s with error %w" optional
  end.

Definition reviewerComment (bot : string) (required : list Reviewer) : string :=
  "Hello " +:+ Join (GetReviewersAlias required) "," +:+ "," +:+ CRLF +:+ CRLF +:+
  "You are randomly selected as the **required** code reviewers of this change. "
    +:+ CRLF +:+ CRLF +:+
  "Your responsibility is to review **each** iteration of this CR until signoff. You should provide no more than 48 hour SLA for each iteration."
    +:+ CRLF +:+ CRLF +:+
  "Thank you." +:+ CRLF +:+ CRLF +:+
  "CR Balancer" +:+ CRLF +:+
  bot.

Definition addReviewerComment (a : AutoReviewer W) (pr : PullRequest)
    (required : list Reviewer) : M W (option error) :=
  let comment := reviewerComment (botIdentifier a) required in
  let repoID := RepositoryId pr in
  do e <- call (CallCreateThread repoID (PullRequestId pr) comment)
               (CreateThread (adoGitClient a) repoID (PullRequestId pr) comment);;
  match e with
  | Some err => ret (Some (Wrap err "failed to add reviewer comment" []))
  | None => ret None
  end.

(** The error of a trigger is logged and dropped. *)
Fixpoint triggersLoop (triggers : list (ReviewerTrigger W))
    (required optional : list Reviewer) (url : string) : M W unit :=
  match triggers with
  | [] => ret tt
  | rTrigger :: rest =>
      do _ <- call (CallReviewerTrigger required optional url)
                   (rTrigger required optional url);;
      triggersLoop rest required optional url
  end.

(** *** One pull request *)

Definition balanceReview (a : AutoReviewer W) (pr : PullRequest) : M W (option error) :=
  do found <- ContainsReviewBalancerComment a (RepositoryId pr) (PullRequestId pr);;
  if found then ret None else
  do r <- getReviewers rt a pr;;
  match r with
  | (_, _, Some err) => ret (Some (Wrap err "failed to get reviewers" []))
  | (requiredReviewers, optionalReviewers, None) =>
      do e <- AddReviewers a (PullRequestId pr) (RepositoryId pr)
                requiredReviewers optionalReviewers;;
      match e with
      | Some err => ret (Some (Wrap err "failed to add reviewers to PR" []))
      | None =>
          do e <- addReviewerComment a pr requiredReviewers;;
          match e with
          | Some err => ret (Some (Wrap err "failed to add reviewer comment" []))
          | None =>
              do _ <- match ReviewerTriggers (AROptions a) with
                      | Some triggers =>
                          triggersLoop triggers requiredReviewers optionalReviewers (Url pr)
                      | None => ret tt
                      end;;
              ret None
          end
      end
  end.

(** *** One repository *)

Fixpoint pullRequestsLoop (a : AutoReviewer W) (pullRequests : list PullRequest)
    : M W (option error) :=
  match pullRequests with
  | [] => ret None
  | pr :: rest =>
      if shouldFilter a pr then pullRequestsLoop a rest
      else
        do e <- balanceReview a pr;;
        match e with
        | Some err => ret (Some (Wrap err "failed to balancer reviewers" []))
        | None => pullRequestsLoop a rest
        end
  end.

Definition Run (a : AutoReviewer W) : M W (option error) :=
  do r <- call (CallGetPullRequests (AdoRepoID (Repo a)) (ProjectName (Repo a)))
               (GetPullRequests (adoGitClient a) (AdoRepoID (Repo a))
                  (ProjectName (Repo a)));;
  match r with
  | inl err => ret (Some (Errorf "get pull requests error: %v" [] err))
  | inr pullRequests => pullRequestsLoop a pullRequests
  end.

(** *** The manager *)

Definition DefaultReconcilePeriod : Z := 60 * 60 * 24 * 1.

Record Manager : Type := mkManager {
  AutoReviewers : list (AutoReviewer W);
  repoStore : RepositoryStoreI W;
}.

Definition setRepo (a : AutoReviewer W) (repo : Repository) : AutoReviewer W :=
  mkAutoReviewer (adoGitClient a) (botIdentifier a) repo (RepoStore a)
    (ReviewerStore a) (TeamStore a) (AROptions a).

Definition NewDefaultManager (repoStore : RepositoryStoreI W)
    (reviewerStore : ReviewerStoreI W) (teamStore : TeamStoreI W)
    (adoGitClient : GitClient W) : M W (error + Manager) :=
  do r <- call CallGetAllRepositories (GetAllRepositories repoStore);;
  match r with
  | inl err => ret (inl err)
  | inr repos =>
      let enabledRepos := List.filter Enabled repos in
      let aReviewers :=
        map (λ repo, (NewAutoReviewer rt adoGitClient defaultBotIdentifier repo
                        repoStore reviewerStore teamStore (mkOptions None None)).1)
            enabledRepos in
      ret (inr (mkManager aReviewers repoStore))
  end.

Definition readClock : M W Z := λ st, (Ret (timeNow rt (world st)), st).

(** The first half of the loop body of [Manager.Run]: a repository whose
    last reconciliation is older than the period is reconciled first.
    Times are in seconds. *)
Definition reconcileIfStale (aReviewer : AutoReviewer W)
    : M W (error + AutoReviewer W) :=
  do now <- readClock;;
  if (LastReconciled (Repo aReviewer) + DefaultReconcilePeriod <? now)%Z
  then
    do c <- call (CallReconcile (Repo aReviewer)) (Reconcile rt (Repo aReviewer));;
    match c.1 with
    | Some err => ret (inl err)
    | None => ret (inr (setRepo aReviewer c.2))
    end
  else ret (inr aReviewer).

Definition managerStep (aReviewer : AutoReviewer W) : M W (option error) :=
  do r <- reconcileIfStale aReviewer;;
  match r with
  | inl err => ret (Some err)
  | inr aReviewer => Run aReviewer
  end.

Fixpoint managerLoop (aReviewers : list (AutoReviewer W)) : M W (option error) :=
  match aReviewers with
  | [] => ret None
  | aReviewer :: rest =>
      do e <- managerStep aReviewer;;
      match e with
      | Some err => ret (Some err)
      | None => managerLoop rest
      end
  end.

Definition ManagerRun (m : Manager) : M W (option error) :=
  managerLoop (AutoReviewers m).
End Orchestrator.

(** ** A simulated platform

    A small executable world on which the functions above can be run: a
    team store, a reviewer store kept in least-recently-used order, and
    one discussion per pull request. *)

Module Sim.
Record world : Type := mkWorld {
  teams : list (string * list string);
  reviewers : list Reviewer;
  groupsOf : list (option ReviewerGroup);
  openPullRequests : list PullRequest;
  discussions : list (Z * string);
  assigned : list (Z * string);
  notified : list (list string);
  outage : bool;
}.

Definition findTeam (name : string) (w : world) : (error + Team) * world :=
  if outage w then (inl (ErrOther "team store unreachable"), w)
  else
    match List.find (λ t, String.eqb t.1 name) (teams w) with
    | Some t => (inr (mkTeam t.1 t.2), w)
    | None => (inl ErrNotFound, w)
    end.

Definition findReviewer (id : string) (w : world)
    : (option Reviewer * option error) * world :=
  match List.find (λ r, String.eqb (AdoID r) id) (reviewers w) with
  | Some r => ((Some r, None), w)
  | None => ((None, Some ErrNotFound), w)
  end.

Definition isCandidate (aliases : list string) (r : Reviewer) : bool :=
  existsb (String.eqb (Alias r)) aliases.

(** The least recently used candidate moves to the back of the queue. *)
Definition popLRU (aliases : list string) (w : world)
    : (option Reviewer * option error) * world :=
  match List.find (isCandidate aliases) (reviewers w) with
  | Some r =>
      ((Some r, None),
       mkWorld (teams w)
         (List.filter (λ r', negb (String.eqb (Alias r') (Alias r))) (reviewers w) ++ [r])
         (groupsOf w) (openPullRequests w) (discussions w) (assigned w)
         (notified w) (outage w))
  | None => ((None, Some ErrNotFound), w)
  end.

Definition threadsOf (prID : Z) (w : world) : list CommentThread :=
  map (λ d, mkThread [mkComment (Some d.2)])
      (List.filter (λ d, (d.1 =? prID)%Z) (discussions w)).

Definition gitClient : GitClient world :=
  mkGitClient world
    (λ _ _ w, (inr (openPullRequests w), w))
    (λ _ prID w, (inr (Some (threadsOf prID w)), w))
    (λ _ prID reviewerID _ w,
       (None, mkWorld (teams w) (reviewers w) (groupsOf w) (openPullRequests w)
                (discussions w) (assigned w ++ [(prID, reviewerID)])
                (notified w) (outage w)))
    (λ _ prID content w,
       (None, mkWorld (teams w) (reviewers w) (groupsOf w) (openPullRequests w)
                (discussions w ++ [(prID, content)]) (assigned w)
                (notified w) (outage w))).

(** A platform whose discussion threads cannot be read. *)
Definition brokenGitClient : GitClient world :=
  mkGitClient world
    (GetPullRequests gitClient)
    (λ _ _ w, (inl (ErrOther "connection reset"), w))
    (CreatePullRequestReviewer gitClient)
    (CreateThread gitClient).

Definition reviewerStore : ReviewerStoreI world := mkReviewerStore world findReviewer popLRU.
Definition teamStore : TeamStoreI world := mkTeamStore world findTeam.
Definition repositoryStore : RepositoryStoreI world :=
  mkRepositoryStore world (λ w, (inr [], w)).

(** Keys are enumerated in the order of [map_to_list]; the slow path of
    [EqualFold] is never taken on the ASCII references used below. *)
Definition runtime : Runtime world :=
  mkRuntime world
    (λ m, (map_to_list m).*1)
    (λ _ _, false)
    (λ _, 0%Z)
    (λ _ w, (inr (groupsOf w), w))
    (λ repo w, ((None, repo), w)).

Definition notify : ReviewerTrigger world :=
  λ required _ _ w,
    (None, mkWorld (teams w) (reviewers w) (groupsOf w) (openPullRequests w)
             (discussions w) (assigned w)
             (notified w ++ [GetReviewersAlias required]) (outage w)).

Definition repo : Repository := mkRepository "repo-1" "project" "helper" true 0.

Definition reviewer : AutoReviewer world :=
  (NewAutoReviewer runtime gitClient defaultBotIdentifier repo repositoryStore
     reviewerStore teamStore (mkOptions None (Some [notify]))).1.

Definition brokenReviewer : AutoReviewer world :=
  (NewAutoReviewer runtime brokenGitClient defaultBotIdentifier repo repositoryStore
     reviewerStore teamStore (mkOptions None (Some [notify]))).1.

Definition alice : Reviewer := mkReviewer "id-alice" "alice".
Definition bob : Reviewer := mkReviewer "id-bob" "bob".
Definition carol : Reviewer := mkReviewer "id-carol" "carol".

Definition pr7 : PullRequest :=
  mkPullRequest 7 "repo-1" "Add retries" (Some false) "refs/heads/master"
    "id-bob" "Bob" "https://dev.example/pr/7".

Definition pr8 : PullRequest :=
  mkPullRequest 8 "repo-1" "Tidy logs" None "refs/heads/master"
    "id-bob" "Bob" "https://dev.example/pr/8".

(** Owners alice and bob, team [Platform] = alice, bob, carol. *)
Definition w0 : world :=
  mkWorld [("Platform", ["alice"; "bob"; "carol"])]
    [alice; bob; carol]
    [Some (mkReviewerGroup {["alice" := true; "bob" := true]} {["Platform" := true]})]
    [pr7; pr8] [] [] [] false.

(** The ownership declaration names the team [Platform] as an owner,
    without the group marker; the author is bob. *)
Definition wTeamAsOwner : world :=
  mkWorld [("Platform", ["alice"; "carol"])]
    [alice; bob; carol]
    [Some (mkReviewerGroup {["Platform" := true]} ∅)]
    [pr7] [] [] [] false.

(** Owners alice and bob, no team reference, team store unreachable. *)
Definition wOutage : world :=
  mkWorld [] [alice; bob; carol]
    [Some (mkReviewerGroup {["alice" := true; "bob" := true]} ∅)]
    [pr7] [] [] [] true.

(** Pull request 7 already carries a comment with the signature. *)
Definition wSigned : world :=
  mkWorld [("Platform", ["alice"; "bob"; "carol"])]
    [bob; carol; alice]
    [Some (mkReviewerGroup {["alice" := true; "bob" := true]} {["Platform" := true]})]
    [pr7; pr8]
    [(7%Z, "Hello alice. CR Balancer b03f5f7f11d50a3a")] [(7%Z, "id-alice")] [] false.

Definition prWip : PullRequest :=
  mkPullRequest 6 "repo-1" "WIP: spike" (Some false) "refs/heads/master"
    "id-carol" "Carol" "https://dev.example/pr/6".

Definition prFeature : PullRequest :=
  mkPullRequest 9 "repo-1" "Backport" (Some false) "refs/heads/release"
    "id-carol" "Carol" "https://dev.example/pr/9".

Definition prShouting : PullRequest :=
  mkPullRequest 10 "repo-1" "Fix typo" (Some false) "REFS/heads/Master"
    "id-carol" "Carol" "https://dev.example/pr/10".

(** The declaration refers to a team that the team store does not know. *)
Definition wUnknownTeam : world :=
  mkWorld [] [alice; bob; carol]
    [Some (mkReviewerGroup {["alice" := true]} {["Ghosts" := true]})]
    [prWip; pr7; pr8] [] [] [] false.

(** A team store with a fixed content. *)
Definition staticTeamStore : TeamStoreI world :=
  mkTeamStore world
    (λ name w, if String.eqb name "Platform"
               then (inr (mkTeam "Platform" ["alice"; "carol"]), w)
               else (inl ErrNotFound, w)).

Definition staticReviewer : AutoReviewer world :=
  (NewAutoReviewer runtime gitClient defaultBotIdentifier repo repositoryStore
     reviewerStore staticTeamStore (mkOptions None None)).1.

(** Owners alice and bob, no team; the author of the pull requests is bob. *)
Definition wOwnersOnly : world :=
  mkWorld [] [alice; bob; carol]
    [Some (mkReviewerGroup {["alice" := true; "bob" := true]} ∅)]
    [pr7] [] [] [] false.

(** Nobody in the reviewer store: the author of the pull request is unknown. *)
Definition wStrangers : world :=
  mkWorld [] []
    [Some (mkReviewerGroup {["alice" := true; "bob" := true]} ∅)]
    [pr7] [] [] [] false.

Definition start (w : world) : State world := mkState w [].
End Sim.

(** ** Expected traces *)

(** The calls that add the given reviewers to a pull request, in order. *)
Definition reviewerEvents (repoID : string) (prID : Z) (isRequired : bool)
    (reviewers : list Reviewer) : list Event :=
  map (λ r, CallCreatePullRequestReviewer repoID prID (AdoID r) isRequired) reviewers.

(** The hooks of a reviewer; a [nil] list holds none. *)
Definition triggersOf {W} (a : AutoReviewer W) : list (ReviewerTrigger W) :=
  default [] (ReviewerTriggers (AROptions a)).

(** A team store answers from a table when what it says about a name does
    not depend on the world it is asked in. *)
Definition AnswersFrom {W} (ts : TeamStoreI W) (table : string → error + Team) : Prop :=
  ∀ name w, (GetTeam ts name w).1 = table name.

(** An error that is [store.ErrNotFound], possibly wrapped. *)
Inductive WrapsNotFound : error → Prop :=
| WrapsNotFound_here : WrapsNotFound ErrNotFound
| WrapsNotFound_wrap (cause : error) (format : string) (args : list fmtArg) :
    WrapsNotFound cause → WrapsNotFound (Wrap cause format args).

(** What a store may answer without the package giving up: no error, or
    not-found. *)
Definition NoErrorOrNotFound (err : option error) : Prop :=
  err = None ∨ ∃ e, err = Some e ∧ WrapsNotFound e.

(** A pool in which every key is mapped to [true]. *)
Definition onlyTrue (m : gmap string bool) : Prop :=
  ∀ k v, m !! k = Some v → v = true.

(** ** The filter the package defines but does not install *)

(** [strings.ToLower]: a string of ASCII bytes is lowered byte by byte; any
    other string goes through the Unicode tables of the Go runtime, a
    parameter here. *)
Definition ToLower (unicodeToLower : string → string) (s : string) : string :=
  if isASCII s then ToLowerASCII s else unicodeToLower s.

(** [filterBotV2PRs] tests its argument against [nil]. *)
Definition filterBotV2PRs (unicodeToLower : string → string)
    (pr : option PullRequest) : bool :=
  match pr with
  | None => true
  | Some pr =>
      let prTitle := ToLower unicodeToLower (Title pr) in
      if Contains prTitle "botv2" then false else true
  end.

(** ** Faulty collaborators for the simulated platform *)

Module Faults.
(** Reviewers can be added, comments cannot be posted. *)
Definition muteGitClient : GitClient Sim.world :=
  mkGitClient Sim.world
    (GetPullRequests Sim.gitClient)
    (GetThreads Sim.gitClient)
    (CreatePullRequestReviewer Sim.gitClient)
    (λ _ _ _ w, (Some (ErrOther "comment rejected"), w)).

(** The reviewer whose identity is [id-carol] cannot be added. *)
Definition pickyGitClient : GitClient Sim.world :=
  mkGitClient Sim.world
    (GetPullRequests Sim.gitClient)
    (GetThreads Sim.gitClient)
    (λ repoID prID reviewerID isRequired w,
       if String.eqb reviewerID "id-carol"
       then (Some (ErrOther "identity not found"), w)
       else CreatePullRequestReviewer Sim.gitClient repoID prID reviewerID isRequired w)
    (CreateThread Sim.gitClient).

(** A hook that always fails. *)
Definition grumpy : ReviewerTrigger Sim.world :=
  λ _ _ _ w, (Some (ErrOther "chat is down"), w).

Definition withClient (gc : GitClient Sim.world) : AutoReviewer Sim.world :=
  (NewAutoReviewer Sim.runtime gc defaultBotIdentifier Sim.repo Sim.repositoryStore
     Sim.reviewerStore Sim.teamStore (mkOptions None (Some [grumpy; Sim.notify]))).1.

(** The clock reads two days; reconciliation fails. *)
Definition lateRuntime : Runtime Sim.world :=
  mkRuntime Sim.world
    (rangeKeys Sim.runtime) (unicodeEqualFold Sim.runtime)
    (λ _, 172800%Z)
    (GetRequiredReviewerGroups Sim.runtime)
    (λ repo w, ((Some (ErrOther "reconcile failed"), repo), w)).

Definition idleRepo : Repository := mkRepository "repo-2" "project" "attic" false 0.
Definition otherRepo : Repository := mkRepository "repo-3" "project" "tools" true 0.

Definition listingStore : RepositoryStoreI Sim.world :=
  mkRepositoryStore Sim.world (λ w, (inr [Sim.repo; idleRepo; otherRepo], w)).

(** A team store that answers from a fixed table, whatever the world. *)
Definition tableOf (name : string) : error + Team :=
  if String.eqb name "Platform" then inr (mkTeam "Platform" ["alice"; "bob"; "carol"])
  else inl ErrNotFound.

Definition tableTeamStore : TeamStoreI Sim.world :=
  mkTeamStore Sim.world (λ name w, (tableOf name, w)).

Definition withTable : AutoReviewer Sim.world :=
  (NewAutoReviewer Sim.runtime Sim.gitClient defaultBotIdentifier Sim.repo
     Sim.repositoryStore Sim.reviewerStore tableTeamStore (mkOptions None None)).1.
(** Every discussion already shows a signed comment. *)
Definition settledGitClient : GitClient Sim.world :=
  mkGitClient Sim.world
    (λ _ _ w, (inr [Sim.prWip; Sim.pr7], w))
    (λ _ _ w, (inr (Some [mkThread [mkComment None;
                                     mkComment (Some "CR Balancer b03f5f7f11d50a3a")]]), w))
    (CreatePullRequestReviewer Sim.gitClient)
    (CreateThread Sim.gitClient).

Definition prBot : PullRequest :=
  mkPullRequest 11 "repo-1" "Bump deps [BotV2]" None "refs/heads/master"
    "id-carol" "Carol" "https://dev.example/pr/11".


(** Two teams: [Platform] with alice and carol, [Core] with dave and bob. *)
Definition rosterOf (name : string) : error + Team :=
  if String.eqb name "Platform" then inr (mkTeam "Platform" ["alice"; "carol"])
  else if String.eqb name "Core" then inr (mkTeam "Core" ["dave"; "bob"])
  else inl ErrNotFound.

Definition rosterTeamStore : TeamStoreI Sim.world :=
  mkTeamStore Sim.world (λ name w, (rosterOf name, w)).

Definition withRoster : AutoReviewer Sim.world :=
  (NewAutoReviewer Sim.runtime Sim.gitClient defaultBotIdentifier Sim.repo
     Sim.repositoryStore Sim.reviewerStore rosterTeamStore (mkOptions None None)).1.

(** The declaration lists [Platform] and alice as owners and refers to the
    team [Core] with the group marker; the author is bob. *)
Definition wMixed : Sim.world :=
  Sim.mkWorld [] [Sim.alice; Sim.bob; Sim.carol]
    [Some (mkReviewerGroup {["Platform" := true; "alice" := true]} {["Core" := true]})]
    [Sim.pr7] [] [] [] false.
End Faults.

(** ** Properties *)

(** *** Strings *)

Lemma lor_lt_128 (x y : N) : (x < 128 → y < 128 → N.lor x y < 128)%N.
Proof.
  intros Hx Hy. destruct (N.eq_dec (N.lor x y) 0) as [->|Hnz]; [done|].
  apply (N.log2_lt_pow2 (N.lor x y) 7); [lia|].
  rewrite N.log2_lor. apply N.max_lub_lt.
  - destruct (N.eq_dec x 0) as [->|Hx0]; [done|]. apply N.log2_lt_pow2; [lia|done].
  - destruct (N.eq_dec y 0) as [->|Hy0]; [done|]. apply N.log2_lt_pow2; [lia|done].
Qed.

Lemma byteOf_lt_256 (c : ascii) : (byteOf c < 256)%N.
Proof. apply N_ascii_bounded. Qed.

Lemma ascii_eqb_byteOf (a b : ascii) : Ascii.eqb a b = (byteOf a =? byteOf b)%N.
Proof.
  destruct (Ascii.eqb_spec a b) as [->|Hne].
  - symmetry. apply N.eqb_refl.
  - symmetry. apply N.eqb_neq. intros Heq. apply Hne.
    rewrite <- (ascii_N_embedding a), <- (ascii_N_embedding b). unfold byteOf in Heq.
    by rewrite Heq.
Qed.

Lemma byteOf_lowerByte (c : ascii) :
  byteOf (lowerByte c) =
  if (65 <=? byteOf c)%N && (byteOf c <=? 90)%N then (byteOf c + 32)%N else byteOf c.
Proof.
  unfold lowerByte. destruct ((65 <=? byteOf c)%N && (byteOf c <=? 90)%N) eqn:Hc; [|done].
  apply andb_prop in Hc as [H1 H2]. apply N.leb_le in H1, H2.
  unfold byteOf at 1. apply N_ascii_embedding. lia.
Qed.

(** On ASCII input [EqualFold] is equality up to the case of the letters,
    whatever the Unicode path does. *)
Lemma EqualFold_ascii (unicode : string → string → bool) (s t : string) :
  isASCII s = true → isASCII t = true →
  EqualFold unicode s t = String.eqb (ToLowerASCII s) (ToLowerASCII t).
Proof.
  revert t. induction s as [|a s IH]; intros [|b t] Hs Ht; try done.
  cbn [isASCII] in Hs, Ht.
  apply andb_prop in Hs as [Ha Hs]. apply andb_prop in Ht as [Hb Ht].
  apply N.ltb_lt in Ha, Hb.
  cbn [EqualFold ToLowerASCII String.eqb].
  pose proof (lor_lt_128 _ _ Ha Hb) as Hlor.
  rewrite (proj2 (N.leb_gt 128 (N.lor (byteOf a) (byteOf b)))) by done.
  rewrite ascii_eqb_byteOf, !byteOf_lowerByte, (IH t Hs Ht).
  set (R := String.eqb (ToLowerASCII s) (ToLowerASCII t)).
  repeat match goal with
         | |- context [N.leb ?x ?y] => destruct (N.leb_spec x y)
         | |- context [N.eqb ?x ?y] => destruct (N.eqb_spec x y)
         end; simpl in *; try reflexivity; lia.
Qed.

Lemma HasPrefix_refl (s : string) : HasPrefix s s = true.
Proof. induction s as [|a s IH]; [done|]. cbn. by rewrite Ascii.eqb_refl. Qed.

Lemma Contains_refl (s : string) : Contains s s = true.
Proof. destruct s; cbn [Contains]; by rewrite HasPrefix_refl. Qed.

(** An occurrence in a suffix is an occurrence. *)
Lemma Contains_append_r (s t u : string) :
  Contains t u = true → Contains (s +:+ t) u = true.
Proof.
  intros H. induction s as [|a s IH]; [done|].
  change (String a s +:+ t) with (String a (s +:+ t)). cbn [Contains].
  rewrite IH. apply orb_true_r.
Qed.

(** The comment that [addReviewerComment] posts carries the signature the
    guard looks for. *)
Lemma reviewerComment_signed (bot : string) (required : list Reviewer) :
  Contains (reviewerComment bot required) bot = true.
Proof.
  unfold reviewerComment.
  do 16 apply Contains_append_r. apply Contains_refl.
Qed.

(** *** Pure lemmas on the pools *)

Lemma foldl_delete_lookup (l : list string) (m : gmap string bool) (k : string) :
  foldl (λ m owner, delete owner m) m l !! k =
  if bool_decide (k ∈ l) then None else m !! k.
Proof.
  revert m. induction l as [|x l IH]; intros m; cbn [foldl].
  - case_bool_decide as Hin; [by apply not_elem_of_nil in Hin|done].
  - rewrite IH. destruct (decide (k = x)) as [->|Hne].
    + rewrite lookup_delete_eq.
      rewrite (bool_decide_eq_true_2 (x ∈ x :: l)) by apply list_elem_of_here.
      by case_bool_decide.
    + rewrite lookup_delete_ne by done.
      assert (bool_decide (k ∈ x :: l) = bool_decide (k ∈ l)) as ->; [|done].
      apply bool_decide_ext. rewrite elem_of_cons.
      split; [intros [?|?]; [congruence|done] | by right].
Qed.

Lemma addMembers_lookup (members : list string) (m : gmap string bool) (k : string) :
  addMembers m members !! k =
  if bool_decide (k ∈ members) then Some true else m !! k.
Proof.
  unfold addMembers. revert m. induction members as [|x l IH]; intros m; cbn [foldl].
  - case_bool_decide as Hin; [by apply not_elem_of_nil in Hin|done].
  - rewrite IH. destruct (decide (k = x)) as [->|Hne].
    + rewrite lookup_insert_eq.
      rewrite (bool_decide_eq_true_2 (x ∈ x :: l)) by apply list_elem_of_here.
      by case_bool_decide.
    + rewrite lookup_insert_ne by done.
      assert (bool_decide (k ∈ x :: l) = bool_decide (k ∈ l)) as ->; [|done].
      apply bool_decide_ext. rewrite elem_of_cons.
      split; [intros [?|?]; [congruence|done] | by right].
Qed.

Lemma rangeKeys_complete {W} (rt : Runtime W) (m : gmap string bool) (k : string) :
  RangeSound rt → is_Some (m !! k) → k ∈ rangeKeys rt m.
Proof.
  intros Hsound [v Hv]. rewrite (Hsound m).
  apply list_elem_of_fmap. exists (k, v). split; [done|].
  by apply elem_of_map_to_list.
Qed.

Lemma dropOwners_lookup_owner {W} (rt : Runtime W)
    (requiredOwners requiredTeamMembers : gmap string bool) (k : string) :
  RangeSound rt → is_Some (requiredOwners !! k) →
  dropOwners rt requiredOwners requiredTeamMembers !! k = None.
Proof.
  intros Hsound Hk. unfold dropOwners. rewrite foldl_delete_lookup.
  by rewrite bool_decide_eq_true_2 by by apply rangeKeys_complete.
Qed.

Lemma dropOwners_lookup_None {W} (rt : Runtime W)
    (requiredOwners requiredTeamMembers : gmap string bool) (k : string) :
  requiredTeamMembers !! k = None →
  dropOwners rt requiredOwners requiredTeamMembers !! k = None.
Proof.
  intros Hk. unfold dropOwners. rewrite foldl_delete_lookup.
  by destruct (bool_decide _).
Qed.

(** *** Resolution *)

(** What a successful resolution went through. *)
Lemma resolvePools_inr {W} (rt : Runtime W) (a : AutoReviewer W) (pr : PullRequest)
    (st st' : State W) (ro rtm : gmap string bool) :
  resolvePools rt a pr st = (Ret (inr (ro, rtm)), st') →
  ∃ groups w1 c w2 ro0 rtm0,
    GetRequiredReviewerGroups rt pr (world st) = (inr groups, w1) ∧
    GetReviewerByADOID (ReviewerStore a) (CreatedById pr) w1 = (c, w2) ∧
    hardError c.2 = None ∧
    groupsLoop rt a groups ∅ ∅
      (mkState w2 (trace st ++ [CallGetRequiredReviewerGroups (PullRequestId pr)]
                     ++ [CallGetReviewerByADOID (CreatedById pr)]))
      = (Ret (inr (ro0, rtm0)), st') ∧
    ro = (removeCreator c.1 ro0 rtm0).1 ∧
    rtm = dropOwners rt ro (removeCreator c.1 ro0 rtm0).2.
Proof.
  unfold resolvePools, bind, call, ret. intros H.
  destruct (GetRequiredReviewerGroups rt pr (world st)) as [[e|groups] w1] eqn:Hg;
    simpl in H; [discriminate|].
  destruct (GetReviewerByADOID (ReviewerStore a) (CreatedById pr) w1)
    as [c w2] eqn:Hc; simpl in H.
  destruct (hardError c.2) eqn:Hh; [discriminate|].
  rewrite <- app_assoc in H.
  destruct (groupsLoop rt a groups ∅ ∅ _) as [[[e|[ro0 rtm0]]|e] st2] eqn:Hl;
    simpl in H; try discriminate.
  injection H as Hro Hrtm Hst. subst st2.
  exists groups, w1, c, w2, ro0, rtm0. repeat split; try done.
  by rewrite <- Hro.
Qed.

(** C2, amended. Self-review exclusion: when the reviewer store knows the
    author of the pull request, a successful resolution leaves the author's
    alias in neither [requiredOwners] nor [requiredTeamMembers], whatever
    the ownership declarations and the team rosters contain. *)
Theorem resolvePools_excludes_author {W} (rt : Runtime W) (a : AutoReviewer W)
    (pr : PullRequest) (st st' : State W) (ro rtm : gmap string bool)
    (groups : list (option ReviewerGroup)) (w1 w2 : W)
    (creator : Reviewer) (err : option error) :
  GetRequiredReviewerGroups rt pr (world st) = (inr groups, w1) →
  GetReviewerByADOID (ReviewerStore a) (CreatedById pr) w1 = ((Some creator, err), w2) →
  resolvePools rt a pr st = (Ret (inr (ro, rtm)), st') →
  ro !! Alias creator = None ∧ rtm !! Alias creator = None.
Proof.
  intros Hg Hc Hres.
  apply resolvePools_inr in Hres
    as (groups' & w1' & c & w2' & ro0 & rtm0 & Hg' & Hc' & _ & _ & -> & ->).
  rewrite Hg in Hg'. injection Hg' as <- <-.
  rewrite Hc in Hc'. injection Hc' as <- <-. simpl.
  split.
  - apply lookup_delete_eq.
  - apply dropOwners_lookup_None, lookup_delete_eq.
Qed.

(** C4. Owner precedence: after a successful resolution no alias is in both
    [requiredOwners] and [requiredTeamMembers], for every enumeration order
    of the maps. *)
Theorem resolvePools_pools_disjoint {W} (rt : Runtime W) (a : AutoReviewer W)
    (pr : PullRequest) (st st' : State W) (ro rtm : gmap string bool) :
  RangeSound rt →
  resolvePools rt a pr st = (Ret (inr (ro, rtm)), st') →
  dom rtm ## dom ro.
Proof.
  intros Hsound Hres.
  apply resolvePools_inr in Hres
    as (groups & w1 & c & w2 & ro0 & rtm0 & _ & _ & _ & _ & Hro & ->).
  intros k Hk Hk'. apply elem_of_dom in Hk, Hk'.
  rewrite (dropOwners_lookup_owner rt ro _ k Hsound Hk') in Hk.
  by destruct Hk.
Qed.

(** *** The loops of the resolution, one iteration at a time *)

Lemma ownersLoop_cons {W} (a : AutoReviewer W) (owner : string) (rest : list string)
    (m : gmap string bool) (st : State W) :
  ownersLoop a (owner :: rest) m st =
  ownersLoop a rest
    (match (GetTeam (TeamStore a) owner (world st)).1 with
     | inr _ => m
     | inl _ => <[owner:=true]> m
     end)
    (mkState (GetTeam (TeamStore a) owner (world st)).2 (trace st ++ [CallGetTeam owner])).
Proof.
  cbn [ownersLoop]. unfold bind, call.
  by destruct (GetTeam (TeamStore a) owner (world st)) as [[e|t] w'].
Qed.

Lemma teamsLoop_cons {W} (a : AutoReviewer W) (teamName : string) (rest : list string)
    (m : gmap string bool) (st : State W) :
  teamsLoop a (teamName :: rest) m st =
  let st1 := mkState (GetTeam (TeamStore a) teamName (world st)).2
               (trace st ++ [CallGetTeam teamName]) in
  match (GetTeam (TeamStore a) teamName (world st)).1 with
  | inl err => (Ret (inl (Wrap err "failed to get team %q" [ArgStr teamName])), st1)
  | inr team => teamsLoop a rest (addMembers m (Members team)) st1
  end.
Proof.
  cbn [teamsLoop]. unfold bind, call, ret.
  by destruct (GetTeam (TeamStore a) teamName (world st)) as [[e|t] w'].
Qed.

(** The owner loop has no way to fail: it always returns a map. *)
Lemma ownersLoop_returns {W} (a : AutoReviewer W) (owners : list string)
    (m : gmap string bool) (st : State W) :
  ∃ m' st', ownersLoop a owners m st = (Ret m', st').
Proof.
  revert m st. induction owners as [|owner rest IH]; intros m st.
  - by eexists _, _.
  - rewrite ownersLoop_cons. apply IH.
Qed.

Lemma ownersLoop_app {W} (a : AutoReviewer W) (l1 l2 : list string)
    (m m1 : gmap string bool) (st st1 : State W) :
  ownersLoop a l1 m st = (Ret m1, st1) →
  ownersLoop a (l1 ++ l2) m st = ownersLoop a l2 m1 st1.
Proof.
  revert m st. induction l1 as [|owner rest IH]; intros m st H.
  - cbn in H. by injection H as -> ->.
  - rewrite <- app_comm_cons, ownersLoop_cons. rewrite ownersLoop_cons in H.
    by apply IH.
Qed.


(** A name the team store always resolves is never admitted as an owner. *)
Lemma ownersLoop_skips_team {W} (a : AutoReviewer W) (owners : list string)
    (m m' : gmap string bool) (st st' : State W) (name : string) :
  (∀ w, ∃ team w', GetTeam (TeamStore a) name w = (inr team, w')) →
  m !! name = None →
  ownersLoop a owners m st = (Ret m', st') →
  m' !! name = None.
Proof.
  intros Hteam. revert m st. induction owners as [|owner rest IH]; intros m st Hk H.
  - cbn in H. by injection H as <- _.
  - rewrite ownersLoop_cons in H. eapply IH; [|exact H].
    destruct (GetTeam (TeamStore a) owner (world st)) as [[e|t] w'] eqn:Hg; [|done].
    simpl. rewrite lookup_insert_ne; [done|].
    intros ->. destruct (Hteam (world st)) as (team & w'' & Hg'). congruence.
Qed.

Lemma groupsLoop_skips_team {W} (rt : Runtime W) (a : AutoReviewer W)
    (groups : list (option ReviewerGroup)) (ro rtm ro' rtm' : gmap string bool)
    (st st' : State W) (name : string) :
  (∀ w, ∃ team w', GetTeam (TeamStore a) name w = (inr team, w')) →
  ro !! name = None →
  groupsLoop rt a groups ro rtm st = (Ret (inr (ro', rtm')), st') →
  ro' !! name = None.
Proof.
  intros Hteam. revert ro rtm st.
  induction groups as [|[g|] rest IH]; intros ro rtm st Hk H.
  - cbn in H. by injection H as <- _ _.
  - cbn [groupsLoop] in H. unfold bind in H.
    destruct (teamsLoop a (rangeKeys rt (Teams g)) rtm st) as [[[e|rtm1]|e] st1];
      try discriminate.
    destruct (ownersLoop a (rangeKeys rt (Owners g)) ro st1) as [[ro1|e] st2] eqn:Ho;
      try discriminate.
    eapply IH; [|exact H]. by eapply ownersLoop_skips_team.
  - cbn [groupsLoop] in H. by eapply IH.
Qed.

Lemma rangeKeys_empty {W} (rt : Runtime W) :
  RangeSound rt → rangeKeys rt ∅ = [].
Proof.
  intros Hsound. apply Permutation_nil_r. rewrite (Hsound ∅).
  by rewrite map_to_list_empty.
Qed.

(** Team members come from team references only. *)
Lemma groupsLoop_no_teams {W} (rt : Runtime W) (a : AutoReviewer W)
    (groups : list (option ReviewerGroup)) (ro rtm ro' rtm' : gmap string bool)
    (st st' : State W) :
  RangeSound rt →
  (∀ g, Some g ∈ groups → Teams g = ∅) →
  groupsLoop rt a groups ro rtm st = (Ret (inr (ro', rtm')), st') →
  rtm' = rtm.
Proof.
  intros Hsound. revert ro rtm st.
  induction groups as [|[g|] rest IH]; intros ro rtm st Hno H.
  - cbn in H. by injection H as _ <- _.
  - cbn [groupsLoop] in H. unfold bind in H.
    rewrite (Hno g), rangeKeys_empty in H by (done || apply list_elem_of_here).
    cbn in H.
    destruct (ownersLoop a (rangeKeys rt (Owners g)) ro st) as [[ro1|e] st2];
      try discriminate.
    eapply IH; [|exact H]. intros g' Hg'. apply Hno. by apply list_elem_of_further.
  - cbn [groupsLoop] in H. eapply IH; [|exact H].
    intros g' Hg'. apply Hno. by apply list_elem_of_further.
Qed.

Lemma groupsLoop_no_teams_returns {W} (rt : Runtime W) (a : AutoReviewer W)
    (groups : list (option ReviewerGroup)) (ro rtm : gmap string bool) (st : State W) :
  RangeSound rt →
  (∀ g, Some g ∈ groups → Teams g = ∅) →
  ∃ ro' st', groupsLoop rt a groups ro rtm st = (Ret (inr (ro', rtm)), st').
Proof.
  intros Hsound. revert ro st.
  induction groups as [|[g|] rest IH]; intros ro st Hno.
  - by eexists _, _.
  - cbn [groupsLoop]. unfold bind.
    rewrite (Hno g), rangeKeys_empty by (done || apply list_elem_of_here).
    cbn.
    destruct (ownersLoop_returns a (rangeKeys rt (Owners g)) ro st) as (ro1 & st1 & ->).
    apply IH. intros g' Hg'. apply Hno. by apply list_elem_of_further.
  - cbn [groupsLoop]. apply IH. intros g' Hg'. apply Hno. by apply list_elem_of_further.
Qed.

(** C3, as the specification words it, fails: an owner entry that names a
    registered team is not expanded. Here the declaration lists [Platform]
    as an owner, the team store knows [Platform] with members alice and
    carol, and the resolution ends with both pools empty. *)
Lemma team_named_as_owner_is_not_expanded :
  let w := Sim.wTeamAsOwner in
  GetRequiredReviewerGroups Sim.runtime Sim.pr7 w
    = (inr [Some (mkReviewerGroup {["Platform" := true]} ∅)], w) ∧
  GetTeam Sim.teamStore "Platform" w = (inr (mkTeam "Platform" ["alice"; "carol"]), w) ∧
  ∃ ro rtm st',
    resolvePools Sim.runtime Sim.reviewer Sim.pr7 (Sim.start w)
      = (Ret (inr (ro, rtm)), st') ∧
    ro !! "carol" = None ∧ rtm !! "carol" = None ∧
    ro !! "alice" = None ∧ rtm !! "alice" = None.
Proof.
  repeat split; try reflexivity.
  eexists _, _, _. split; [vm_compute; reflexivity|]. by vm_compute.
Qed.

(** *** Selection *)

Lemma teamsLoop_returns {W} (a : AutoReviewer W) (teamNames : list string)
    (m : gmap string bool) (st : State W) :
  ∃ r st', teamsLoop a teamNames m st = (Ret r, st').
Proof.
  revert m st. induction teamNames as [|teamName rest IH]; intros m st.
  - by eexists _, _.
  - rewrite teamsLoop_cons. cbn zeta.
    destruct (GetTeam (TeamStore a) teamName (world st)).1 as [e|team].
    + by eexists _, _.
    + apply IH.
Qed.

Lemma groupsLoop_returns {W} (rt : Runtime W) (a : AutoReviewer W)
    (groups : list (option ReviewerGroup)) (ro rtm : gmap string bool) (st : State W) :
  ∃ r st', groupsLoop rt a groups ro rtm st = (Ret r, st').
Proof.
  revert ro rtm st. induction groups as [|[g|] rest IH]; intros ro rtm st.
  - by eexists _, _.
  - cbn [groupsLoop]. unfold bind.
    destruct (teamsLoop_returns a (rangeKeys rt (Teams g)) rtm st) as ([e|rtm1] & st1 & ->).
    + by eexists _, _.
    + destruct (ownersLoop_returns a (rangeKeys rt (Owners g)) ro st1) as (ro1 & st2 & ->).
      apply IH.
  - cbn [groupsLoop]. apply IH.
Qed.

(** The resolution never panics. *)
Lemma resolvePools_returns {W} (rt : Runtime W) (a : AutoReviewer W) (pr : PullRequest)
    (st : State W) :
  ∃ r st', resolvePools rt a pr st = (Ret r, st').
Proof.
  unfold resolvePools, bind, call, ret.
  destruct (GetRequiredReviewerGroups rt pr (world st)) as [[e|groups] w1]; simpl.
  { by eexists _, _. }
  destruct (GetReviewerByADOID (ReviewerStore a) (CreatedById pr) w1) as [c w2]; simpl.
  destruct (hardError c.2).
  { by eexists _, _. }
  match goal with
  | |- context [groupsLoop rt a groups ∅ ∅ ?s] =>
      destruct (groupsLoop_returns rt a groups ∅ ∅ s) as ([e|[ro rtm]] & st1 & ->)
  end; by eexists _, _.
Qed.

Lemma appendReviewer_option_list (l : list Reviewer) (r : option Reviewer) :
  appendReviewer l r = l ++ option_list r.
Proof. destruct r; simpl; [done|by rewrite app_nil_r]. Qed.

(** *** Filters *)

Lemma filterLoop_true (filters : list Filter) (pr : PullRequest) :
  filterLoop filters pr = true ↔ ∃ filter, filter ∈ filters ∧ filter pr = true.
Proof.
  induction filters as [|f rest IH]; cbn [filterLoop].
  - split; [done|]. intros (f & Hin & _). by apply not_elem_of_nil in Hin.
  - destruct (f pr) eqn:Hf.
    + split; [|done]. intros _. exists f. split; [apply list_elem_of_here|done].
    + rewrite IH. split.
      * intros (g & Hin & Hg). exists g. split; [by apply list_elem_of_further|done].
      * intros (g & Hin & Hg). apply elem_of_cons in Hin as [->|Hin]; [congruence|].
        by exists g.
Qed.

(** C7. A reviewer built with a custom filter list excludes a pull request
    exactly when some filter of the list returns true, and built with the
    empty list it excludes nothing. *)
Theorem shouldFilter_any_filter {W} (rt : Runtime W) (gc : GitClient W) (bot : string)
    (repo : Repository) (repoStore : RepositoryStoreI W) (reviewerStore : ReviewerStoreI W)
    (teamStore : TeamStoreI W) (triggers : option (list (ReviewerTrigger W)))
    (filters : list Filter) (pr : PullRequest) :
  (shouldFilter (NewAutoReviewer rt gc bot repo repoStore reviewerStore teamStore
                   (mkOptions (Some filters) triggers)).1 pr = true
   ↔ ∃ filter, filter ∈ filters ∧ filter pr = true) ∧
  shouldFilter (NewAutoReviewer rt gc bot repo repoStore reviewerStore teamStore
                  (mkOptions (Some []) triggers)).1 pr = false.
Proof.
  split; [|done]. unfold shouldFilter, NewAutoReviewer. simpl. apply filterLoop_true.
Qed.

(** *** Idempotency guard *)

Lemma commentsLoop_true (bot : string) (comments : list Comment) :
  commentsLoop bot comments = true ↔
  ∃ comment content,
    comment ∈ comments ∧ Content comment = Some content ∧ Contains content bot = true.
Proof.
  induction comments as [|c rest IH]; cbn [commentsLoop].
  - split; [done|]. intros (c & ? & Hin & _). by apply not_elem_of_nil in Hin.
  - destruct (Content c) as [content|] eqn:Hc; [destruct (Contains content bot) eqn:Hb|].
    + split; [|done]. intros _. exists c, content.
      split; [apply list_elem_of_here|done].
    + rewrite IH. split.
      * intros (c' & content' & Hin & H'). exists c', content'.
        split; [by apply list_elem_of_further|done].
      * intros (c' & content' & Hin & Hc' & Hb').
        apply elem_of_cons in Hin as [->|Hin]; [congruence|]. by exists c', content'.
    + rewrite IH. split.
      * intros (c' & content' & Hin & H'). exists c', content'.
        split; [by apply list_elem_of_further|done].
      * intros (c' & content' & Hin & Hc' & Hb').
        apply elem_of_cons in Hin as [->|Hin]; [congruence|]. by exists c', content'.
Qed.

Lemma threadsLoop_true (bot : string) (threads : list CommentThread) :
  threadsLoop bot threads = true ↔
  ∃ thread comment content,
    thread ∈ threads ∧ comment ∈ Comments thread ∧
    Content comment = Some content ∧ Contains content bot = true.
Proof.
  induction threads as [|t rest IH]; cbn [threadsLoop].
  - split; [done|]. intros (t & ? & ? & Hin & _). by apply not_elem_of_nil in Hin.
  - destruct (commentsLoop bot (Comments t)) eqn:Hc.
    + split; [|done]. intros _. apply commentsLoop_true in Hc as (c & content & ? & ?).
      exists t, c, content. split; [apply list_elem_of_here|done].
    + rewrite IH. split.
      * intros (t' & c & content & Hin & H'). exists t', c, content.
        split; [by apply list_elem_of_further|done].
      * intros (t' & c & content & Hin & Hcin & H').
        apply elem_of_cons in Hin as [->|Hin]; [|by exists t', c, content].
        assert (commentsLoop bot (Comments t) = true) as Htrue
          by (apply commentsLoop_true; by exists c, content).
        congruence.
Qed.

Lemma mutations_read (t : list Event) (repoID : string) (prID : Z) :
  mutations (t ++ [CallGetThreads repoID prID]) = mutations t.
Proof. unfold mutations. rewrite List.filter_app. simpl. apply app_nil_r. Qed.

Lemma resolutions_read (t : list Event) (repoID : string) (prID : Z) :
  resolutions (t ++ [CallGetThreads repoID prID]) = resolutions t.
Proof. unfold resolutions. rewrite List.filter_app. simpl. apply app_nil_r. Qed.

(** C1. Idempotency: when the discussion of the pull request holds a
    comment whose body contains the bot signature, balancing it returns
    without error after the one read of the discussion; no reviewer is
    added, no comment is posted and no hook fires. *)
Theorem balanceReview_skips_signed_pull_request {W} (rt : Runtime W)
    (a : AutoReviewer W) (pr : PullRequest) (st : State W)
    (threads : list CommentThread) (w' : W) :
  GetThreads (adoGitClient a) (RepositoryId pr) (PullRequestId pr) (world st)
    = (inr (Some threads), w') →
  (∃ thread comment content,
     thread ∈ threads ∧ comment ∈ Comments thread ∧
     Content comment = Some content ∧ Contains content (botIdentifier a) = true) →
  let st' := mkState w' (trace st ++ [CallGetThreads (RepositoryId pr) (PullRequestId pr)]) in
  balanceReview rt a pr st = (Ret None, st') ∧
  mutations (trace st') = mutations (trace st).
Proof.
  intros Hread Hsigned st'. split; [|apply mutations_read].
  apply threadsLoop_true in Hsigned.
  unfold balanceReview, ContainsReviewBalancerComment, bind, call, ret.
  rewrite Hread. simpl. by rewrite Hsigned.
Qed.

(** C5. When the read of the discussion fails, balancing the pull request
    panics with that error right after the read: nothing was resolved,
    nothing was mutated, and the panic reaches the caller, the loop over the
    pull requests of the repository, which ends with it. *)
Theorem balanceReview_thread_read_failure {W} (rt : Runtime W)
    (a : AutoReviewer W) (pr : PullRequest) (st : State W) (err : error) (w' : W) :
  GetThreads (adoGitClient a) (RepositoryId pr) (PullRequestId pr) (world st)
    = (inl err, w') →
  let st' := mkState w' (trace st ++ [CallGetThreads (RepositoryId pr) (PullRequestId pr)]) in
  balanceReview rt a pr st = (Panic err, st') ∧
  mutations (trace st') = mutations (trace st) ∧
  resolutions (trace st') = resolutions (trace st) ∧
  (∀ rest, shouldFilter a pr = false →
           pullRequestsLoop rt a (pr :: rest) st = (Panic err, st')).
Proof.
  intros Hread st'.
  assert (balanceReview rt a pr st = (Panic err, st')) as Hpanic.
  { unfold balanceReview, ContainsReviewBalancerComment, bind, call, panic.
    by rewrite Hread. }
  repeat split; [done|apply mutations_read|apply resolutions_read|].
  intros rest Hkeep. cbn [pullRequestsLoop]. rewrite Hkeep. unfold bind.
  by rewrite Hpanic.
Qed.

(** *** Stopping at the first error *)

Lemma pullRequestsLoop_app {W} (rt : Runtime W) (a : AutoReviewer W)
    (pre rest : list PullRequest) (st st1 : State W) :
  pullRequestsLoop rt a pre st = (Ret None, st1) →
  pullRequestsLoop rt a (pre ++ rest) st = pullRequestsLoop rt a rest st1.
Proof.
  revert st. induction pre as [|pr pre IH]; intros st H.
  - cbn in H. by injection H as ->.
  - rewrite <- app_comm_cons. cbn [pullRequestsLoop] in *.
    destruct (shouldFilter a pr); [by apply IH|].
    unfold bind in *.
    destruct (balanceReview rt a pr st) as [[[e|]|e] st2]; try discriminate.
    by apply IH.
Qed.

Lemma managerLoop_app {W} (rt : Runtime W) (pre rest : list (AutoReviewer W))
    (st st1 : State W) :
  managerLoop rt pre st = (Ret None, st1) →
  managerLoop rt (pre ++ rest) st = managerLoop rt rest st1.
Proof.
  revert st. induction pre as [|a pre IH]; intros st H.
  - cbn in H. by injection H as ->.
  - rewrite <- app_comm_cons. cbn [managerLoop] in *. unfold bind in *.
    destruct (managerStep rt a st) as [[[e|]|e] st2]; try discriminate.
    by apply IH.
Qed.

(** C10. When balancing a pull request returns an error, the run of its
    repository returns it at once, in the state that balancing left, so the
    pull requests after it are not touched; and the cycle of the manager
    returns it in that same state, so the reviewers after this one are not
    run. *)
Theorem balance_error_stops_repository_and_manager {W} (rt : Runtime W)
    (pre post : list (AutoReviewer W)) (aReviewer aReviewer' : AutoReviewer W)
    (store : RepositoryStoreI W)
    (before after : list PullRequest) (pr : PullRequest)
    (st0 st1 st2 st4 st5 : State W) (w3 : W) (err : error) :
  managerLoop rt pre st0 = (Ret None, st1) →
  reconcileIfStale rt aReviewer st1 = (Ret (inr aReviewer'), st2) →
  GetPullRequests (adoGitClient aReviewer') (AdoRepoID (Repo aReviewer'))
    (ProjectName (Repo aReviewer')) (world st2) = (inr (before ++ pr :: after), w3) →
  pullRequestsLoop rt aReviewer' before
    (mkState w3 (trace st2 ++ [CallGetPullRequests (AdoRepoID (Repo aReviewer'))
                                 (ProjectName (Repo aReviewer'))]))
    = (Ret None, st4) →
  shouldFilter aReviewer' pr = false →
  balanceReview rt aReviewer' pr st4 = (Ret (Some err), st5) →
  let failure := Some (Wrap err "failed to balancer reviewers" []) in
  Run rt aReviewer' st2 = (Ret failure, st5) ∧
  ManagerRun rt (mkManager (pre ++ aReviewer :: post) store) st0 = (Ret failure, st5).
Proof.
  intros Hpre Hrec Hlist Hbefore Hkeep Hbal failure.
  assert (Run rt aReviewer' st2 = (Ret failure, st5)) as Hrun.
  { unfold Run, bind, call. rewrite Hlist.
    rewrite (pullRequestsLoop_app rt aReviewer' before (pr :: after) _ st4 Hbefore).
    cbn [pullRequestsLoop]. rewrite Hkeep. unfold bind. by rewrite Hbal. }
  split; [done|].
  unfold ManagerRun. cbn [AutoReviewers].
  rewrite (managerLoop_app rt pre (aReviewer :: post) st0 st1 Hpre).
  cbn [managerLoop]. unfold bind, managerStep, bind. rewrite Hrec, Hrun. done.
Qed.

(** *** Further facts, and the engine run on the simulated platform *)

(** Without a filter list the three default filters apply. *)
Lemma NewAutoReviewer_nil_filters {W} (rt : Runtime W) (gc : GitClient W) (bot : string)
    (repo : Repository) (repoStore : RepositoryStoreI W) (reviewerStore : ReviewerStoreI W)
    (teamStore : TeamStoreI W) (triggers : option (list (ReviewerTrigger W)))
    (pr : PullRequest) :
  shouldFilter (NewAutoReviewer rt gc bot repo repoStore reviewerStore teamStore
                  (mkOptions None triggers)).1 pr
  = filterWIP pr || filterMasterBranchOnly rt pr || filterDraft pr.
Proof.
  unfold shouldFilter, NewAutoReviewer. cbn.
  by destruct (filterWIP pr), (filterMasterBranchOnly rt pr), (filterDraft pr).
Qed.

(** X20. On ASCII references the branch filter lets through exactly the
    spellings of [refs/heads/master] in any letter case. *)
Lemma filterMasterBranchOnly_ascii {W} (rt : Runtime W) (pr : PullRequest) :
  isASCII (TargetRefName pr) = true →
  filterMasterBranchOnly rt pr
  = negb (String.eqb (ToLowerASCII (TargetRefName pr)) "refs/heads/master").
Proof.
  intros Hascii. unfold filterMasterBranchOnly, masterRef.
  rewrite (EqualFold_ascii _ _ "refs/heads/master" Hascii eq_refl).
  change (ToLowerASCII "refs/heads/master") with "refs/heads/master".
  by destruct (String.eqb _ _).
Qed.

(** X21. An author the reviewer store does not know is not removed from
    the pools: the owners are what the declarations gave, and the team
    members lose the owners only. *)
Lemma resolvePools_unknown_author {W} (rt : Runtime W) (a : AutoReviewer W)
    (pr : PullRequest) (st st' : State W) (ro rtm : gmap string bool)
    (groups : list (option ReviewerGroup)) (w1 w2 : W) (err : option error) :
  GetRequiredReviewerGroups rt pr (world st) = (inr groups, w1) →
  GetReviewerByADOID (ReviewerStore a) (CreatedById pr) w1 = ((None, err), w2) →
  resolvePools rt a pr st = (Ret (inr (ro, rtm)), st') →
  ∃ rtm0,
    groupsLoop rt a groups ∅ ∅
      (mkState w2 (trace st ++ [CallGetRequiredReviewerGroups (PullRequestId pr)]
                     ++ [CallGetReviewerByADOID (CreatedById pr)]))
      = (Ret (inr (ro, rtm0)), st') ∧
    rtm = dropOwners rt ro rtm0.
Proof.
  intros Hg Hc Hres.
  apply resolvePools_inr in Hres
    as (groups' & w1' & c & w2' & ro0 & rtm0 & Hg' & Hc' & _ & Hloop & -> & ->).
  rewrite Hg in Hg'. injection Hg' as <- <-.
  rewrite Hc in Hc'. injection Hc' as <- <-. simpl.
  by exists rtm0.
Qed.

Example sim_unknown_author_stays :
  ∃ ro rtm st',
    resolvePools Sim.runtime Sim.reviewer Sim.pr7 (Sim.start Sim.wStrangers)
      = (Ret (inr (ro, rtm)), st') ∧
    ro !! "bob" = Some true.
Proof. eexists _, _, _. split; vm_compute; reflexivity. Qed.

(** The scenario of the design document: owners alice and bob, no team,
    author bob. Alice alone is required, the comment names her and carries
    the signature, the hook gets [[alice]] and an empty optional list. *)
Example sim_end_to_end :
  let r := Run Sim.runtime Sim.reviewer (Sim.start Sim.wOwnersOnly) in
  r.1 = Ret None ∧
  mutations (trace r.2) =
    [CallCreatePullRequestReviewer "repo-1" 7 "id-alice" true;
     CallCreateThread "repo-1" 7 (reviewerComment defaultBotIdentifier [Sim.alice]);
     CallReviewerTrigger [Sim.alice] [] "https://dev.example/pr/7"] ∧
  Sim.assigned (world r.2) = [(7%Z, "id-alice")] ∧
  Sim.notified (world r.2) = [["alice"]].
Proof. vm_compute. repeat split. Qed.

(** A second cycle over the same repository mutates nothing. *)
Example sim_second_cycle_is_silent :
  let first := Run Sim.runtime Sim.reviewer (Sim.start Sim.w0) in
  let second := Run Sim.runtime Sim.reviewer (Sim.start (world first.2)) in
  first.1 = Ret None ∧ second.1 = Ret None ∧
  List.length (mutations (trace first.2)) = 8 ∧
  mutations (trace second.2) = [] ∧
  Sim.assigned (world second.2) = Sim.assigned (world first.2).
Proof. vm_compute. repeat split. Qed.

(** The least recently used reviewer is popped and moves to the back. *)
Example sim_pop_rotates :
  let first := Sim.popLRU ["alice"; "carol"] Sim.w0 in
  let second := Sim.popLRU ["alice"; "carol"] first.2 in
  first.1 = (Some Sim.alice, None) ∧ second.1 = (Some Sim.carol, None).
Proof. vm_compute. repeat split. Qed.

Example EqualFold_examples :
  EqualFold (λ _ _, false) "REFS/heads/Master" "refs/heads/master" = true ∧
  EqualFold (λ _ _, false) "refs/heads/main" "refs/heads/master" = false ∧
  EqualFold (λ _ _, false) "refs/heads/master2" "refs/heads/master" = false ∧
  EqualFold (λ _ _, false) "refs/heads/maste" "refs/heads/master" = false ∧
  EqualFold (λ _ _, false) "[" "{" = false.
Proof. vm_compute. repeat split. Qed.

Example Contains_examples :
  Contains "fix WIP thing" "WIP" = true ∧ Contains "fix wip thing" "WIP" = false ∧
  Contains "" "" = true ∧ Contains "abc" "" = true ∧ Contains "" "a" = false.
Proof. vm_compute. repeat split. Qed.

Example default_filters_examples :
  shouldFilter Sim.reviewer Sim.prWip = true ∧
  shouldFilter Sim.reviewer Sim.prFeature = true ∧
  shouldFilter Sim.reviewer Sim.prShouting = false ∧
  shouldFilter Sim.reviewer Sim.pr8 = false.
Proof. vm_compute. repeat split. Qed.

(** ** The theorems at work on the simulated platform *)

Lemma sim_range_sound : RangeSound Sim.runtime.
Proof. intros m. reflexivity. Qed.

Lemma balanceReview_skips_signed_pull_request_witness :
  balanceReview Sim.runtime Sim.reviewer Sim.pr7 (Sim.start Sim.wSigned)
    = (Ret None, mkState Sim.wSigned [CallGetThreads "repo-1" 7]) ∧
  mutations [CallGetThreads "repo-1" 7] = [].
Proof.
  apply (balanceReview_skips_signed_pull_request Sim.runtime Sim.reviewer Sim.pr7
           (Sim.start Sim.wSigned)
           [mkThread [mkComment (Some "Hello alice. CR Balancer b03f5f7f11d50a3a")]]
           Sim.wSigned).
  - reflexivity.
  - exists (mkThread [mkComment (Some "Hello alice. CR Balancer b03f5f7f11d50a3a")]),
      (mkComment (Some "Hello alice. CR Balancer b03f5f7f11d50a3a")),
      "Hello alice. CR Balancer b03f5f7f11d50a3a".
    repeat split; try apply list_elem_of_here.
Defined.

Lemma resolvePools_excludes_author_witness :
  ∃ ro rtm st',
    resolvePools Sim.runtime Sim.reviewer Sim.pr7 (Sim.start Sim.w0)
      = (Ret (inr (ro, rtm)), st') ∧
    ro !! "bob" = None ∧ rtm !! "bob" = None.
Proof.
  eexists _, _, _. split; [vm_compute; reflexivity|].
  eapply (resolvePools_excludes_author Sim.runtime Sim.reviewer Sim.pr7 (Sim.start Sim.w0)
            _ _ _ (Sim.groupsOf Sim.w0) Sim.w0 Sim.w0 Sim.bob None).
  - reflexivity.
  - reflexivity.
  - vm_compute; reflexivity.
Defined.

Lemma resolvePools_pools_disjoint_witness :
  ∃ ro rtm st',
    resolvePools Sim.runtime Sim.reviewer Sim.pr7 (Sim.start Sim.w0)
      = (Ret (inr (ro, rtm)), st') ∧
    ro !! "alice" = Some true ∧ rtm !! "carol" = Some true ∧
    dom rtm ## dom ro.
Proof.
  eexists _, _, _. split; [vm_compute; reflexivity|].
  split; [vm_compute; reflexivity|]. split; [vm_compute; reflexivity|].
  eapply (resolvePools_pools_disjoint Sim.runtime Sim.reviewer Sim.pr7 (Sim.start Sim.w0)).
  - intros m. reflexivity.
  - vm_compute; reflexivity.
Defined.

Lemma balanceReview_thread_read_failure_witness :
  balanceReview Sim.runtime Sim.brokenReviewer Sim.pr7 (Sim.start Sim.w0)
    = (Panic (ErrOther "connection reset"),
       mkState Sim.w0 [CallGetThreads "repo-1" 7]) ∧
  pullRequestsLoop Sim.runtime Sim.brokenReviewer [Sim.pr7; Sim.pr8] (Sim.start Sim.w0)
    = (Panic (ErrOther "connection reset"),
       mkState Sim.w0 [CallGetThreads "repo-1" 7]).
Proof.
  destruct (balanceReview_thread_read_failure Sim.runtime Sim.brokenReviewer Sim.pr7
              (Sim.start Sim.w0) (ErrOther "connection reset") Sim.w0)
    as (Hpanic & _ & _ & Hloop).
  - reflexivity.
  - split; [exact Hpanic|]. apply Hloop. reflexivity.
Defined.

Lemma balance_error_stops_repository_and_manager_witness :
  ∃ err st5,
    Run Sim.runtime Sim.reviewer (Sim.start Sim.wUnknownTeam)
      = (Ret (Some (Wrap err "failed to balancer reviewers" [])), st5) ∧
    ManagerRun Sim.runtime
      (mkManager ([] ++ Sim.reviewer :: [Sim.reviewer]) Sim.repositoryStore)
      (Sim.start Sim.wUnknownTeam)
      = (Ret (Some (Wrap err "failed to balancer reviewers" [])), st5).
Proof.
  eexists _, _.
  eapply (balance_error_stops_repository_and_manager Sim.runtime [] [Sim.reviewer]
            Sim.reviewer Sim.reviewer Sim.repositoryStore [Sim.prWip] [Sim.pr8] Sim.pr7
            (Sim.start Sim.wUnknownTeam) _ _ _ _ Sim.wUnknownTeam).
  - reflexivity.
  - reflexivity.
  - reflexivity.
  - reflexivity.
  - reflexivity.
  - vm_compute; reflexivity.
Defined.

(** ** Beyond the claims: the rest of the package *)

(** *** Calls that do not mutate *)

Lemma mutations_snoc_quiet (t : list Event) (ev : Event) :
  isMutation ev = false → mutations (t ++ [ev]) = mutations t.
Proof.
  intros Hq. unfold mutations. rewrite List.filter_app. simpl. rewrite Hq.
  apply app_nil_r.
Qed.

Lemma mutations_snoc_loud (t : list Event) (ev : Event) :
  isMutation ev = true → mutations (t ++ [ev]) = mutations t ++ [ev].
Proof.
  intros Hq. unfold mutations. rewrite List.filter_app. simpl. by rewrite Hq.
Qed.

Lemma teamsLoop_quiet {W} (a : AutoReviewer W) (teamNames : list string)
    (m : gmap string bool) (st : State W) :
  mutations (trace (teamsLoop a teamNames m st).2) = mutations (trace st).
Proof.
  revert m st. induction teamNames as [|teamName rest IH]; intros m st; [done|].
  rewrite teamsLoop_cons. cbn zeta.
  destruct (GetTeam (TeamStore a) teamName (world st)).1 as [e|team].
  - simpl. by apply mutations_snoc_quiet.
  - rewrite IH. simpl. by apply mutations_snoc_quiet.
Qed.

Lemma ownersLoop_quiet {W} (a : AutoReviewer W) (owners : list string)
    (m : gmap string bool) (st : State W) :
  mutations (trace (ownersLoop a owners m st).2) = mutations (trace st).
Proof.
  revert m st. induction owners as [|owner rest IH]; intros m st; [done|].
  rewrite ownersLoop_cons, IH. simpl. by apply mutations_snoc_quiet.
Qed.

Lemma groupsLoop_quiet {W} (rt : Runtime W) (a : AutoReviewer W)
    (groups : list (option ReviewerGroup)) (ro rtm : gmap string bool) (st : State W) :
  mutations (trace (groupsLoop rt a groups ro rtm st).2) = mutations (trace st).
Proof.
  revert ro rtm st. induction groups as [|[g|] rest IH]; intros ro rtm st; [done| |].
  - cbn [groupsLoop]. unfold bind.
    pose proof (teamsLoop_quiet a (rangeKeys rt (Teams g)) rtm st) as Ht.
    destruct (teamsLoop a (rangeKeys rt (Teams g)) rtm st) as [[[e|rtm1]|e] st1];
      simpl in *; try done.
    pose proof (ownersLoop_quiet a (rangeKeys rt (Owners g)) ro st1) as Ho.
    destruct (ownersLoop a (rangeKeys rt (Owners g)) ro st1) as [[ro1|e] st2];
      simpl in *; [|congruence].
    rewrite IH. congruence.
  - cbn [groupsLoop]. apply IH.
Qed.

Lemma resolvePools_quiet {W} (rt : Runtime W) (a : AutoReviewer W) (pr : PullRequest)
    (st : State W) :
  mutations (trace (resolvePools rt a pr st).2) = mutations (trace st).
Proof.
  unfold resolvePools, bind, call, ret.
  destruct (GetRequiredReviewerGroups rt pr (world st)) as [[e|groups] w1]; simpl.
  { by apply mutations_snoc_quiet. }
  destruct (GetReviewerByADOID (ReviewerStore a) (CreatedById pr) w1) as [c w2]; simpl.
  destruct (hardError c.2); simpl.
  { by rewrite !mutations_snoc_quiet. }
  match goal with
  | |- context [groupsLoop rt a groups ∅ ∅ ?s] =>
      pose proof (groupsLoop_quiet rt a groups ∅ ∅ s) as Hg;
      destruct (groupsLoop rt a groups ∅ ∅ s) as [[[e|[ro rtm]]|e] st1]
  end; simpl in *; rewrite Hg; by rewrite !mutations_snoc_quiet.
Qed.

Lemma selectReviewers_quiet {W} (rt : Runtime W) (a : AutoReviewer W)
    (ro rtm : gmap string bool) (st : State W) :
  mutations (trace (selectReviewers rt a ro rtm st).2) = mutations (trace st).
Proof.
  unfold selectReviewers, bind, call, ret.
  destruct (PopLRUReviewer (ReviewerStore a) (getAliases rt ro) (world st))
    as [[owner e1] w1]; simpl.
  destruct (hardError e1); simpl.
  { by apply mutations_snoc_quiet. }
  destruct (PopLRUReviewer (ReviewerStore a) (getAliases rt rtm) w1)
    as [[teamMember e2] w2]; simpl.
  destruct (hardError e2); simpl; by rewrite !mutations_snoc_quiet.
Qed.

Lemma getReviewers_quiet {W} (rt : Runtime W) (a : AutoReviewer W)
    (pr : PullRequest) (st : State W) :
  mutations (trace (getReviewers rt a pr st).2) = mutations (trace st).
Proof.
  unfold getReviewers, bind.
  pose proof (resolvePools_quiet rt a pr st) as Hr.
  destruct (resolvePools rt a pr st) as [[[e|[ro rtm]]|e] st1]; simpl in *; try done.
  by rewrite selectReviewers_quiet.
Qed.

Lemma selectReviewers_returns {W} (rt : Runtime W) (a : AutoReviewer W)
    (ro rtm : gmap string bool) (st : State W) :
  ∃ required err st', selectReviewers rt a ro rtm st = (Ret (required, [], err), st').
Proof.
  unfold selectReviewers, bind, call, ret.
  destruct (PopLRUReviewer (ReviewerStore a) (getAliases rt ro) (world st))
    as [[owner e1] w1]; simpl.
  destruct (hardError e1); simpl; [by eexists _, _, _|].
  destruct (PopLRUReviewer (ReviewerStore a) (getAliases rt rtm) w1)
    as [[teamMember e2] w2]; simpl.
  destruct (hardError e2); simpl; by eexists _, _, _.
Qed.

Lemma getReviewers_returns {W} (rt : Runtime W) (a : AutoReviewer W)
    (pr : PullRequest) (st : State W) :
  ∃ required err st', getReviewers rt a pr st = (Ret (required, [], err), st').
Proof.
  unfold getReviewers, bind.
  destruct (resolvePools_returns rt a pr st) as ([e|[ro rtm]] & st1 & ->).
  - by eexists _, _, _.
  - apply selectReviewers_returns.
Qed.

(** *** The guard, both ways *)

(** X1. When the discussion can be read, the guard answers true exactly
    when some thread holds a comment with a body that contains the
    signature; a missing thread list and comments without body count for
    nothing. *)
Theorem ContainsReviewBalancerComment_iff {W} (a : AutoReviewer W)
    (repositoryID : string) (pullRequestID : Z) (st : State W)
    (threads : option (list CommentThread)) (w' : W) :
  GetThreads (adoGitClient a) repositoryID pullRequestID (world st) = (inr threads, w') →
  ∃ found,
    ContainsReviewBalancerComment a repositoryID pullRequestID st
      = (Ret found, mkState w' (trace st ++ [CallGetThreads repositoryID pullRequestID])) ∧
    (found = true ↔
     ∃ ths thread comment content,
       threads = Some ths ∧ thread ∈ ths ∧ comment ∈ Comments thread ∧
       Content comment = Some content ∧ Contains content (botIdentifier a) = true).
Proof.
  intros Hread. unfold ContainsReviewBalancerComment, bind, call, ret.
  rewrite Hread. destruct threads as [ths|].
  - eexists. split; [reflexivity|]. rewrite threadsLoop_true. split.
    + intros (thread & comment & content & H). by exists ths, thread, comment, content.
    + intros (ths' & thread & comment & content & [= <-] & H).
      by exists thread, comment, content.
  - exists false. split; [reflexivity|]. split; [done|].
    by intros (ths' & ? & ? & ? & [=] & _).
Qed.

(** X2. The comment that [addReviewerComment] sends to the platform is one
    the guard recognises: once a thread of the discussion shows it,
    balancing that pull request again stops after the read. *)
Theorem posted_comment_stops_next_balancing {W} (rt : Runtime W) (a : AutoReviewer W)
    (pr : PullRequest) (required : list Reviewer) (st0 : State W) :
  ∃ content,
    trace (addReviewerComment a pr required st0).2
      = trace st0 ++ [CallCreateThread (RepositoryId pr) (PullRequestId pr) content] ∧
    ∀ (st : State W) (threads : list CommentThread) (thread : CommentThread) (w' : W),
      GetThreads (adoGitClient a) (RepositoryId pr) (PullRequestId pr) (world st)
        = (inr (Some threads), w') →
      thread ∈ threads →
      mkComment (Some content) ∈ Comments thread →
      balanceReview rt a pr st
        = (Ret None,
           mkState w' (trace st ++ [CallGetThreads (RepositoryId pr) (PullRequestId pr)])).
Proof.
  exists (reviewerComment (botIdentifier a) required). split.
  - unfold addReviewerComment, bind, call, ret.
    destruct (CreateThread _ _ _ _ _) as [[e|] w1]; reflexivity.
  - intros st threads thread w' Hread Hthread Hcomment.
    unfold balanceReview, ContainsReviewBalancerComment, bind, call, ret.
    rewrite Hread. simpl.
    assert (threadsLoop (botIdentifier a) threads = true) as ->; [|done].
    apply threadsLoop_true. eexists thread, _, _.
    repeat split; [done|exact Hcomment|reflexivity|apply reviewerComment_signed].
Qed.

(** X9. When the guard finds no signature and [getReviewers] returns an
    error, [balanceReview] returns it wrapped and has mutated nothing. *)
Theorem balanceReview_resolution_error {W} (rt : Runtime W) (a : AutoReviewer W)
    (pr : PullRequest) (st st1 st2 : State W) (required optional : list Reviewer)
    (err : error) :
  ContainsReviewBalancerComment a (RepositoryId pr) (PullRequestId pr) st
    = (Ret false, st1) →
  getReviewers rt a pr st1 = (Ret (required, optional, Some err), st2) →
  balanceReview rt a pr st = (Ret (Some (Wrap err "failed to get reviewers" [])), st2) ∧
  mutations (trace st2) = mutations (trace st).
Proof.
  intros Hguard Hget. split.
  - unfold balanceReview, bind. by rewrite Hguard, Hget.
  - pose proof (getReviewers_quiet rt a pr st1) as Hq. rewrite Hget in Hq.
    simpl in Hq. rewrite Hq. clear Hq Hget.
    unfold ContainsReviewBalancerComment, bind, call, ret, panic in Hguard.
    destruct (GetThreads _ _ _ _) as [[e|[ths|]] w1]; simpl in Hguard;
      try discriminate; inversion Hguard; subst; simpl; by apply mutations_snoc_quiet.
Qed.

(** *** Adding reviewers, posting the comment, firing the hooks *)

Lemma mutations_app (t l : list Event) :
  mutations (t ++ l) = mutations t ++ mutations l.
Proof. apply List.filter_app. Qed.

Lemma mutations_reviewerEvents (repoID : string) (prID : Z) (isRequired : bool)
    (reviewers : list Reviewer) :
  mutations (reviewerEvents repoID prID isRequired reviewers)
  = reviewerEvents repoID prID isRequired reviewers.
Proof. induction reviewers as [|r rest IH]; [done|]. cbn. by f_equal. Qed.

Lemma mutations_replicate_trigger (n : nat) (required optional : list Reviewer)
    (url : string) :
  mutations (replicate n (CallReviewerTrigger required optional url))
  = replicate n (CallReviewerTrigger required optional url).
Proof. induction n as [|n IH]; [done|]. cbn. by f_equal. Qed.

Lemma addReviewersLoop_cons {W} (a : AutoReviewer W) (prID : Z) (repoID : string)
    (isRequired : bool) (format : string) (r : Reviewer) (rest : list Reviewer)
    (st : State W) :
  addReviewersLoop a prID repoID isRequired format (r :: rest) st =
  let answer := CreatePullRequestReviewer (adoGitClient a) repoID prID (AdoID r)
                  isRequired (world st) in
  let st1 := mkState answer.2
               (trace st ++ [CallCreatePullRequestReviewer repoID prID (AdoID r) isRequired]) in
  match answer.1 with
  | Some err => (Ret (Some (Wrap err format [ArgStr (Alias r)])), st1)
  | None => addReviewersLoop a prID repoID isRequired format rest st1
  end.
Proof.
  cbn [addReviewersLoop]. unfold bind, call, ret.
  by destruct (CreatePullRequestReviewer _ _ _ _ _ _) as [[e|] w'].
Qed.

Lemma addReviewersLoop_trace {W} (a : AutoReviewer W) (prID : Z) (repoID : string)
    (isRequired : bool) (format : string) (reviewers : list Reviewer) (st : State W) :
  ∃ e st' evs,
    addReviewersLoop a prID repoID isRequired format reviewers st = (Ret e, st') ∧
    trace st' = trace st ++ evs ∧
    evs `prefix_of` reviewerEvents repoID prID isRequired reviewers ∧
    (e = None → evs = reviewerEvents repoID prID isRequired reviewers).
Proof.
  revert st. induction reviewers as [|r rest IH]; intros st.
  - exists None, st, []. by rewrite app_nil_r.
  - rewrite addReviewersLoop_cons. cbn zeta.
    destruct (CreatePullRequestReviewer _ _ _ _ _ _).1 as [err|].
    + eexists _, _, [_]. repeat split; [|done].
      cbn. apply prefix_cons, prefix_nil.
    + match goal with
      | |- context [addReviewersLoop a prID repoID isRequired format rest ?s] =>
          destruct (IH s) as (e & st' & evs & -> & Htrace & Hpre & Hall)
      end.
      eexists e, st', (_ :: evs). repeat split.
      * rewrite Htrace. simpl. by rewrite <- app_assoc.
      * cbn. by apply prefix_cons.
      * intros ->. cbn. by rewrite Hall.
Qed.

Lemma addReviewersLoop_app {W} (a : AutoReviewer W) (prID : Z) (repoID : string)
    (isRequired : bool) (format : string) (pre rest : list Reviewer) (st st1 : State W) :
  addReviewersLoop a prID repoID isRequired format pre st = (Ret None, st1) →
  addReviewersLoop a prID repoID isRequired format (pre ++ rest) st
  = addReviewersLoop a prID repoID isRequired format rest st1.
Proof.
  revert st. induction pre as [|r pre IH]; intros st H.
  - cbn in H. by injection H as ->.
  - rewrite <- app_comm_cons, addReviewersLoop_cons. rewrite addReviewersLoop_cons in H.
    cbn zeta in *.
    destruct (CreatePullRequestReviewer _ _ _ _ _ _).1; [discriminate|]. by apply IH.
Qed.

(** Without optional reviewers and without error, every required reviewer
    was added. *)
Lemma AddReviewers_required_only {W} (a : AutoReviewer W) (pullRequestID : Z)
    (repoID : string) (required : list Reviewer) (st st3 : State W) :
  AddReviewers a pullRequestID repoID required [] st = (Ret None, st3) →
  trace st3 = trace st ++ reviewerEvents repoID pullRequestID true required.
Proof.
  unfold AddReviewers, bind. intros H.
  destruct (addReviewersLoop_trace a pullRequestID repoID true
              "failed to add required reviewer %s with error %w" required st)
    as ([err|] & st1 & evs1 & Hrun & Ht1 & _ & Ha1); rewrite Hrun in H.
  - discriminate.
  - cbn in H. injection H as <-. by rewrite Ht1, (Ha1 eq_refl).
Qed.

(** X4. [AddReviewers] always returns. The calls it makes are a prefix of:
    every required reviewer in order with the required flag, then every
    optional reviewer in order without it; when it returns no error it
    made all of them. *)
Theorem AddReviewers_calls {W} (a : AutoReviewer W) (pullRequestID : Z) (repoID : string)
    (required optional : list Reviewer) (st : State W) :
  ∃ e st' evs,
    AddReviewers a pullRequestID repoID required optional st = (Ret e, st') ∧
    trace st' = trace st ++ evs ∧
    evs `prefix_of` (reviewerEvents repoID pullRequestID true required ++
                     reviewerEvents repoID pullRequestID false optional) ∧
    (e = None → evs = reviewerEvents repoID pullRequestID true required ++
                      reviewerEvents repoID pullRequestID false optional).
Proof.
  unfold AddReviewers, bind.
  destruct (addReviewersLoop_trace a pullRequestID repoID true
              "failed to add required reviewer %s with error %w" required st)
    as ([err|] & st1 & evs1 & -> & Ht1 & Hp1 & Ha1).
  - exists (Some err), st1, evs1. repeat split; [done| |done].
    by apply prefix_app_r.
  - specialize (Ha1 eq_refl) as ->.
    destruct (addReviewersLoop_trace a pullRequestID repoID false
                "failed to add optional reviewer %s with error %w" optional st1)
      as (e & st2 & evs2 & -> & Ht2 & Hp2 & Ha2).
    eexists e, st2, (_ ++ evs2). repeat split.
    + by rewrite Ht2, Ht1, <- app_assoc.
    + by apply prefix_app.
    + intros He. by rewrite (Ha2 He).
Qed.

(** X5. The first required reviewer the platform refuses ends
    [AddReviewers]: the error names that reviewer and wraps the cause, and
    neither the reviewers after it nor the optional ones are attempted. *)
Theorem AddReviewers_stops_at_refusal {W} (a : AutoReviewer W) (pullRequestID : Z)
    (repoID : string) (pre post optional : list Reviewer) (r : Reviewer)
    (st st1 : State W) (err : error) (w2 : W) :
  addReviewersLoop a pullRequestID repoID true
    "failed to add required reviewer %s with error %w" pre st = (Ret None, st1) →
  CreatePullRequestReviewer (adoGitClient a) repoID pullRequestID (AdoID r) true (world st1)
    = (Some err, w2) →
  AddReviewers a pullRequestID repoID (pre ++ r :: post) optional st
  = (Ret (Some (Wrap err "failed to add required reviewer %s with error %w"
                  [ArgStr (Alias r)])),
     mkState w2 (trace st1 ++
                 [CallCreatePullRequestReviewer repoID pullRequestID (AdoID r) true])).
Proof.
  intros Hpre Hrefuse. unfold AddReviewers, bind.
  rewrite (addReviewersLoop_app _ _ _ _ _ pre (r :: post) st st1 Hpre).
  rewrite addReviewersLoop_cons. cbn zeta. by rewrite Hrefuse.
Qed.

Lemma triggersLoop_trace {W} (triggers : list (ReviewerTrigger W))
    (required optional : list Reviewer) (url : string) (st : State W) :
  ∃ st',
    triggersLoop triggers required optional url st = (Ret tt, st') ∧
    trace st' = trace st ++
      replicate (List.length triggers) (CallReviewerTrigger required optional url).
Proof.
  revert st. induction triggers as [|t rest IH]; intros st.
  - exists st. by rewrite app_nil_r.
  - cbn [triggersLoop]. unfold bind, call.
    destruct (t required optional url (world st)) as [e w1].
    match goal with
    | |- context [triggersLoop rest required optional url ?s] =>
        destruct (IH s) as (st' & -> & Htrace)
    end.
    exists st'. split; [done|]. rewrite Htrace. simpl. by rewrite <- app_assoc.
Qed.

(** X6. Every hook is called once, in order, with the same reviewers and
    address, whatever the hooks before it returned: an error of a hook
    neither stops the loop nor is returned. *)
Theorem triggersLoop_fires_all {W} (triggers : list (ReviewerTrigger W))
    (required optional : list Reviewer) (url : string) (st : State W) :
  ∃ st',
    triggersLoop triggers required optional url st = (Ret tt, st') ∧
    trace st' = trace st ++
      replicate (List.length triggers) (CallReviewerTrigger required optional url) ∧
    world st' = foldl (λ w t, (t required optional url w).2) (world st) triggers.
Proof.
  destruct (triggersLoop_trace triggers required optional url st) as (st' & Hrun & Htrace).
  exists st'. repeat split; [done..|].
  clear Htrace. revert st Hrun. induction triggers as [|t rest IH]; intros st Hrun.
  - cbn in Hrun. by injection Hrun as <-.
  - cbn [triggersLoop] in Hrun. unfold bind, call in Hrun.
    destruct (t required optional url (world st)) as [e w1] eqn:Ht.
    apply IH in Hrun. rewrite Hrun. cbn. by rewrite Ht.
Qed.

(** *** A pull request from end to end *)

Lemma ContainsReviewBalancerComment_quiet {W} (a : AutoReviewer W)
    (repositoryID : string) (pullRequestID : Z) (st : State W) :
  mutations (trace (ContainsReviewBalancerComment a repositoryID pullRequestID st).2)
  = mutations (trace st).
Proof.
  unfold ContainsReviewBalancerComment, bind, call, ret, panic.
  destruct (GetThreads _ _ _ _) as [[e|[ths|]] w1]; simpl; by apply mutations_snoc_quiet.
Qed.

Lemma balanceReview_prelude_quiet {W} (rt : Runtime W) (a : AutoReviewer W)
    (pr : PullRequest) (st st1 st2 : State W) (found : bool)
    (r : list Reviewer * list Reviewer * option error) :
  ContainsReviewBalancerComment a (RepositoryId pr) (PullRequestId pr) st
    = (Ret found, st1) →
  getReviewers rt a pr st1 = (Ret r, st2) →
  mutations (trace st2) = mutations (trace st).
Proof.
  intros Hguard Hget.
  pose proof (getReviewers_quiet rt a pr st1) as H2. rewrite Hget in H2.
  pose proof (ContainsReviewBalancerComment_quiet a (RepositoryId pr) (PullRequestId pr) st)
    as H1. rewrite Hguard in H1. simpl in *. congruence.
Qed.

Lemma getReviewers_optional_nil {W} (rt : Runtime W) (a : AutoReviewer W)
    (pr : PullRequest) (st st' : State W) (required optional : list Reviewer)
    (err : option error) :
  getReviewers rt a pr st = (Ret (required, optional, err), st') → optional = [].
Proof.
  intros H. destruct (getReviewers_returns rt a pr st) as (r' & e' & st'' & Heq).
  rewrite H in Heq. by injection Heq.
Qed.

(** X7. A balancing that finds no signature, selects reviewers and returns
    no error has changed the pull request by exactly this, in this order:
    each selected reviewer added as required, one comment posted whose body
    is the signed greeting naming them, and each hook called once with the
    selected reviewers and an empty optional list. *)
Theorem balanceReview_success_mutations {W} (rt : Runtime W) (a : AutoReviewer W)
    (pr : PullRequest) (st st1 st2 st' : State W) (required optional : list Reviewer) :
  ContainsReviewBalancerComment a (RepositoryId pr) (PullRequestId pr) st
    = (Ret false, st1) →
  getReviewers rt a pr st1 = (Ret (required, optional, None), st2) →
  balanceReview rt a pr st = (Ret None, st') →
  mutations (trace st') =
    mutations (trace st) ++
    reviewerEvents (RepositoryId pr) (PullRequestId pr) true required ++
    [CallCreateThread (RepositoryId pr) (PullRequestId pr)
       (reviewerComment (botIdentifier a) required)] ++
    replicate (List.length (triggersOf a)) (CallReviewerTrigger required [] (Url pr)).
Proof.
  intros Hguard Hget Hbal.
  pose proof (getReviewers_optional_nil _ _ _ _ _ _ _ _ Hget) as ->.
  pose proof (balanceReview_prelude_quiet _ _ _ _ _ _ _ _ Hguard Hget) as Hquiet.
  unfold balanceReview, bind in Hbal. rewrite Hguard, Hget in Hbal.
  destruct (AddReviewers a (PullRequestId pr) (RepositoryId pr) required [] st2)
    as [[[e|]|e] st3] eqn:Hadd; try discriminate.
  apply AddReviewers_required_only in Hadd as Ht3.
  unfold addReviewerComment, bind, call, ret in Hbal.
  destruct (CreateThread _ _ _ _ _) as [[e|] w4]; simpl in Hbal; [discriminate|].
  unfold triggersOf.
  destruct (ReviewerTriggers (AROptions a)) as [triggers|]; simpl in *.
  - match type of Hbal with
    | context [triggersLoop triggers required [] (Url pr) ?s] =>
        destruct (triggersLoop_trace triggers required [] (Url pr) s)
          as (st5 & Hrun & Ht5)
    end.
    rewrite Hrun in Hbal. injection Hbal as <-. rewrite Ht5. simpl. rewrite Ht3.
    rewrite !mutations_app, Hquiet, mutations_reviewerEvents, mutations_replicate_trigger.
    by rewrite <- !app_assoc.
  - injection Hbal as <-. simpl. rewrite Ht3.
    rewrite !mutations_app, Hquiet, mutations_reviewerEvents.
    by rewrite <- !app_assoc.
Qed.

(** X8. When the reviewers were added and the platform then refuses the
    comment, [balanceReview] returns that error, wrapped twice, at once:
    the reviewers stay added, the pull request carries no signature, and no
    hook is called. *)
Theorem balanceReview_comment_refused {W} (rt : Runtime W) (a : AutoReviewer W)
    (pr : PullRequest) (st st1 st2 st3 : State W) (required optional : list Reviewer)
    (err : error) (w4 : W) :
  ContainsReviewBalancerComment a (RepositoryId pr) (PullRequestId pr) st
    = (Ret false, st1) →
  getReviewers rt a pr st1 = (Ret (required, optional, None), st2) →
  AddReviewers a (PullRequestId pr) (RepositoryId pr) required optional st2
    = (Ret None, st3) →
  CreateThread (adoGitClient a) (RepositoryId pr) (PullRequestId pr)
    (reviewerComment (botIdentifier a) required) (world st3) = (Some err, w4) →
  let attempt := CallCreateThread (RepositoryId pr) (PullRequestId pr)
                   (reviewerComment (botIdentifier a) required) in
  balanceReview rt a pr st
    = (Ret (Some (Wrap (Wrap err "failed to add reviewer comment" [])
                    "failed to add reviewer comment" [])),
       mkState w4 (trace st3 ++ [attempt])) ∧
  mutations (trace st3 ++ [attempt]) =
    mutations (trace st) ++
    reviewerEvents (RepositoryId pr) (PullRequestId pr) true required ++ [attempt].
Proof.
  intros Hguard Hget Hadd Hpost attempt.
  pose proof (getReviewers_optional_nil _ _ _ _ _ _ _ _ Hget) as ->.
  pose proof (balanceReview_prelude_quiet _ _ _ _ _ _ _ _ Hguard Hget) as Hquiet.
  split.
  - unfold balanceReview, bind. rewrite Hguard, Hget, Hadd.
    unfold addReviewerComment, bind, call, ret. by rewrite Hpost.
  - apply AddReviewers_required_only in Hadd as Ht3.
    rewrite Ht3, !mutations_app, Hquiet, mutations_reviewerEvents.
    by rewrite <- !app_assoc.
Qed.

(** *** A repository, and the manager *)

Lemma resolutions_snoc_quiet (t : list Event) (ev : Event) :
  isResolution ev = false → resolutions (t ++ [ev]) = resolutions t.
Proof.
  intros Hq. unfold resolutions. rewrite List.filter_app. simpl. rewrite Hq.
  apply app_nil_r.
Qed.

Lemma pullRequestsLoop_silent {W} (rt : Runtime W) (a : AutoReviewer W)
    (prs : list PullRequest) (st : State W) :
  (∀ pr, pr ∈ prs →
     shouldFilter a pr = true ∨
     ∀ w, ∃ threads w',
       GetThreads (adoGitClient a) (RepositoryId pr) (PullRequestId pr) w
         = (inr (Some threads), w') ∧
       threadsLoop (botIdentifier a) threads = true) →
  ∃ st',
    pullRequestsLoop rt a prs st = (Ret None, st') ∧
    mutations (trace st') = mutations (trace st) ∧
    resolutions (trace st') = resolutions (trace st).
Proof.
  revert st. induction prs as [|pr rest IH]; intros st Hsettled.
  - by exists st.
  - assert (∀ pr', pr' ∈ rest →
              shouldFilter a pr' = true ∨
              ∀ w, ∃ threads w',
                GetThreads (adoGitClient a) (RepositoryId pr') (PullRequestId pr') w
                  = (inr (Some threads), w') ∧
                threadsLoop (botIdentifier a) threads = true) as Hrest.
    { intros pr' Hin. apply Hsettled. by apply list_elem_of_further. }
    cbn [pullRequestsLoop].
    destruct (shouldFilter a pr) eqn:Hfilter; [by apply IH|].
    destruct (Hsettled pr (list_elem_of_here _ _)) as [Hf|Hsigned]; [congruence|].
    destruct (Hsigned (world st)) as (threads & w' & Hread & Hfound).
    unfold bind, balanceReview, ContainsReviewBalancerComment, bind, call, ret.
    rewrite Hread. simpl. rewrite Hfound.
    match goal with
    | |- context [pullRequestsLoop rt a rest ?s] =>
        destruct (IH s Hrest) as (st' & -> & Hm & Hr)
    end.
    exists st'. split; [done|]. rewrite Hm, Hr. simpl.
    by rewrite mutations_snoc_quiet, resolutions_snoc_quiet.
Qed.

(** X10. A cycle over a settled repository is silent: when every listed
    pull request is either excluded by the filters or shows the signature
    in its discussion, [Run] returns no error and has neither resolved
    reviewers nor mutated anything. *)
Theorem Run_settled_repository_is_silent {W} (rt : Runtime W) (a : AutoReviewer W)
    (st : State W) (prs : list PullRequest) (w1 : W) :
  GetPullRequests (adoGitClient a) (AdoRepoID (Repo a)) (ProjectName (Repo a)) (world st)
    = (inr prs, w1) →
  (∀ pr, pr ∈ prs →
     shouldFilter a pr = true ∨
     ∀ w, ∃ threads w',
       GetThreads (adoGitClient a) (RepositoryId pr) (PullRequestId pr) w
         = (inr (Some threads), w') ∧
       threadsLoop (botIdentifier a) threads = true) →
  ∃ st',
    Run rt a st = (Ret None, st') ∧
    mutations (trace st') = mutations (trace st) ∧
    resolutions (trace st') = resolutions (trace st).
Proof.
  intros Hlist Hsettled. unfold Run, bind, call. rewrite Hlist.
  match goal with
  | |- context [pullRequestsLoop rt a prs ?s] =>
      destruct (pullRequestsLoop_silent rt a prs s Hsettled) as (st' & -> & Hm & Hr)
  end.
  exists st'. split; [done|]. rewrite Hm, Hr. simpl.
  by rewrite mutations_snoc_quiet, resolutions_snoc_quiet.
Qed.

(** X11. [NewDefaultManager] builds one reviewer per enabled repository, in
    the order of the store, and none for a disabled one; each carries the
    default signature, the three default filters and no hook. *)
Theorem NewDefaultManager_enabled_only {W} (rt : Runtime W)
    (repoStore : RepositoryStoreI W) (reviewerStore : ReviewerStoreI W)
    (teamStore : TeamStoreI W) (gc : GitClient W) (st : State W)
    (repos : list Repository) (w' : W) :
  GetAllRepositories repoStore (world st) = (inr repos, w') →
  ∃ m,
    NewDefaultManager rt repoStore reviewerStore teamStore gc st
      = (Ret (inr m), mkState w' (trace st ++ [CallGetAllRepositories])) ∧
    map Repo (AutoReviewers m) = List.filter Enabled repos ∧
    (∀ repo, repo ∈ map Repo (AutoReviewers m) ↔ repo ∈ repos ∧ Enabled repo = true) ∧
    (∀ a, a ∈ AutoReviewers m →
       botIdentifier a = defaultBotIdentifier ∧
       Filters (AROptions a) = Some (defaultFilters rt) ∧
       ReviewerTriggers (AROptions a) = None).
Proof.
  intros Hrepos. unfold NewDefaultManager, bind, call, ret. rewrite Hrepos.
  eexists. split; [reflexivity|]. cbn [AutoReviewers].
  assert (∀ l : list Repository,
            map Repo (map (λ repo, (NewAutoReviewer rt gc defaultBotIdentifier repo
                                      repoStore reviewerStore teamStore
                                      (mkOptions None None)).1) l) = l) as Hmap.
  { intros l. rewrite List.map_map. apply List.map_id. }
  split; [apply Hmap|]. split.
  - intros repo. rewrite Hmap, !list_elem_of_In, List.filter_In. reflexivity.
  - intros a Ha. apply list_elem_of_fmap in Ha as (repo & -> & _). by repeat split.
Qed.

(** X12. When a reviewer's repository is stale and its reconciliation
    fails, the cycle of the manager ends there with that error, unwrapped:
    the pull requests of the repository are not even listed, and the
    reviewers after it are not run. *)
Theorem ManagerRun_reconcile_failure {W} (rt : Runtime W)
    (pre post : list (AutoReviewer W)) (aReviewer : AutoReviewer W)
    (store : RepositoryStoreI W) (st0 st1 : State W) (err : error)
    (repo' : Repository) (w2 : W) :
  managerLoop rt pre st0 = (Ret None, st1) →
  (LastReconciled (Repo aReviewer) + DefaultReconcilePeriod < timeNow rt (world st1))%Z →
  Reconcile rt (Repo aReviewer) (world st1) = ((Some err, repo'), w2) →
  ManagerRun rt (mkManager (pre ++ aReviewer :: post) store) st0
    = (Ret (Some err), mkState w2 (trace st1 ++ [CallReconcile (Repo aReviewer)])).
Proof.
  intros Hpre Hstale Hrec. unfold ManagerRun. cbn [AutoReviewers].
  rewrite (managerLoop_app rt pre (aReviewer :: post) st0 st1 Hpre).
  cbn [managerLoop]. unfold bind, managerStep, bind, reconcileIfStale, bind, readClock.
  apply Z.ltb_lt in Hstale. rewrite Hstale.
  unfold call, ret. by rewrite Hrec.
Qed.

(** A repository reconciled within the period is run as it is: the
    manager makes no reconciliation call for it. *)
Lemma managerStep_fresh_repository {W} (rt : Runtime W) (aReviewer : AutoReviewer W)
    (st : State W) :
  (timeNow rt (world st) ≤ LastReconciled (Repo aReviewer) + DefaultReconcilePeriod)%Z →
  managerStep rt aReviewer st = Run rt aReviewer st.
Proof.
  intros Hfresh. unfold managerStep, bind, reconcileIfStale, bind, readClock.
  by rewrite (proj2 (Z.ltb_ge _ _) Hfresh).
Qed.

(** *** What the pools hold, for a team store that answers from a table *)

Lemma rangeKeys_sound {W} (rt : Runtime W) (m : gmap string bool) (k : string) :
  RangeSound rt → k ∈ rangeKeys rt m → is_Some (m !! k).
Proof.
  intros Hsound Hin. rewrite (Hsound m) in Hin.
  apply list_elem_of_fmap in Hin as ([k' v] & -> & Hin).
  apply elem_of_map_to_list in Hin. by exists v.
Qed.

Lemma ownersLoop_table {W} (a : AutoReviewer W) (table : string → error + Team)
    (owners : list string) (m m' : gmap string bool) (st st' : State W) :
  AnswersFrom (TeamStore a) table →
  ownersLoop a owners m st = (Ret m', st') →
  ∀ k, m' !! k = Some true ↔
       m !! k = Some true ∨ (k ∈ owners ∧ ∃ e, table k = inl e).
Proof.
  intros Htable. revert m st. induction owners as [|owner rest IH]; intros m st H k.
  - cbn in H. injection H as <- _. split; [by left|].
    intros [?|[Hin _]]; [done|]. by apply not_elem_of_nil in Hin.
  - rewrite ownersLoop_cons, (Htable owner (world st)) in H.
    apply IH with (k := k) in H. rewrite H, elem_of_cons. clear H.
    destruct (table owner) as [e|team] eqn:Ht.
    + rewrite lookup_insert_Some. split.
      * intros [[[-> _]|[_ Hm]]|[Hin He]]; eauto.
      * intros [Hm|[[->|Hin] He]]; eauto.
        destruct (decide (owner = k)) as [->|Hne]; eauto.
    + split.
      * intros [Hm|[Hin He]]; eauto.
      * intros [Hm|[[->|Hin] [e He]]]; eauto. congruence.
Qed.

Lemma teamsLoop_table {W} (a : AutoReviewer W) (table : string → error + Team)
    (teamNames : list string) (m : gmap string bool) (st st' : State W)
    (r : error + gmap string bool) :
  AnswersFrom (TeamStore a) table →
  teamsLoop a teamNames m st = (Ret r, st') →
  match r with
  | inl err =>
      ∃ t e, t ∈ teamNames ∧ table t = inl e ∧
             err = Wrap e "failed to get team %q" [ArgStr t]
  | inr m' =>
      (∀ t, t ∈ teamNames → ∃ team, table t = inr team) ∧
      ∀ k, m' !! k = Some true ↔
           m !! k = Some true ∨
           ∃ t team, t ∈ teamNames ∧ table t = inr team ∧ k ∈ Members team
  end.
Proof.
  intros Htable. revert m st. induction teamNames as [|teamName rest IH]; intros m st H.
  - cbn in H. injection H as <- _. split.
    + intros t Hin. by apply not_elem_of_nil in Hin.
    + intros k. split; [by left|].
      intros [?|(t & ? & Hin & _)]; [done|]. by apply not_elem_of_nil in Hin.
  - rewrite teamsLoop_cons in H. cbn zeta in H. rewrite (Htable teamName (world st)) in H.
    destruct (table teamName) as [e|team] eqn:Ht.
    + injection H as <- _. exists teamName, e. split; [apply list_elem_of_here|done].
    + apply IH in H. destruct r as [err|m'].
      * destruct H as (t & e & Hin & He & ->). exists t, e.
        split; [by apply list_elem_of_further|done].
      * destruct H as [Hall Hk]. split.
        -- intros t Hin. apply elem_of_cons in Hin as [->|Hin]; eauto.
        -- intros k. rewrite Hk, addMembers_lookup. clear Hk. split.
           ++ intros [Hm|(t & team' & Hin & Ht' & Hmem)].
              ** case_bool_decide as Hmem; [|by left].
                 right. exists teamName, team. split; [apply list_elem_of_here|done].
              ** right. exists t, team'. split; [by apply list_elem_of_further|done].
           ++ intros [Hm|(t & team' & Hin & Ht' & Hmem)].
              ** left. by case_bool_decide.
              ** apply elem_of_cons in Hin as [->|Hin].
                 --- left. rewrite Ht in Ht'. injection Ht' as <-.
                     by rewrite bool_decide_eq_true_2.
                 --- right. by exists t, team'.
Qed.

Lemma groupsLoop_table {W} (rt : Runtime W) (a : AutoReviewer W)
    (table : string → error + Team) (groups : list (option ReviewerGroup))
    (ro rtm : gmap string bool) (st st' : State W)
    (r : error + gmap string bool * gmap string bool) :
  RangeSound rt →
  AnswersFrom (TeamStore a) table →
  groupsLoop rt a groups ro rtm st = (Ret r, st') →
  match r with
  | inl err =>
      ∃ g t e, Some g ∈ groups ∧ is_Some (Teams g !! t) ∧ table t = inl e ∧
               err = Wrap e "failed to get team %q" [ArgStr t]
  | inr (ro', rtm') =>
      (∀ g t, Some g ∈ groups → is_Some (Teams g !! t) → ∃ team, table t = inr team) ∧
      (∀ k, ro' !! k = Some true ↔
            ro !! k = Some true ∨
            ∃ g e, Some g ∈ groups ∧ is_Some (Owners g !! k) ∧ table k = inl e) ∧
      (∀ k, rtm' !! k = Some true ↔
            rtm !! k = Some true ∨
            ∃ g t team, Some g ∈ groups ∧ is_Some (Teams g !! t) ∧
                        table t = inr team ∧ k ∈ Members team)
  end.
Proof.
  intros Hsound Htable. revert ro rtm st.
  induction groups as [|[g|] rest IH]; intros ro rtm st H.
  - cbn in H. injection H as <- _. repeat split.
    + intros g t Hin. by apply not_elem_of_nil in Hin.
    + by left.
    + intros [?|(g & ? & Hin & _)]; [done|]. by apply not_elem_of_nil in Hin.
    + by left.
    + intros [?|(g & ? & ? & Hin & _)]; [done|]. by apply not_elem_of_nil in Hin.
  - cbn [groupsLoop] in H. unfold bind in H.
    destruct (teamsLoop a (rangeKeys rt (Teams g)) rtm st) as [[r1|e] st1] eqn:Hteams;
      [|discriminate].
    apply (teamsLoop_table a table) in Hteams; [|done].
    destruct r1 as [err|rtm1].
    { injection H as <- _. destruct Hteams as (t & e & Hin & He & ->).
      exists g, t, e. split; [apply list_elem_of_here|].
      split; [by eapply rangeKeys_sound|done]. }
    destruct Hteams as [Hall Hrtm1].
    destruct (ownersLoop a (rangeKeys rt (Owners g)) ro st1) as [[ro1|e] st2] eqn:Howners;
      [|discriminate].
    pose proof (ownersLoop_table a table _ _ _ _ _ Htable Howners) as Hro1.
    apply IH in H. destruct r as [err|[ro' rtm']].
    { destruct H as (g' & t & e & Hin & H). exists g', t, e.
      split; [by apply list_elem_of_further|done]. }
    destruct H as (Hall' & Hro & Hrtm). repeat split.
    + intros g' t Hin Ht. apply elem_of_cons in Hin as [[= ->]|Hin]; [|by eauto].
      apply Hall. by apply rangeKeys_complete.
    + rewrite Hro, Hro1. intros [[Hm|[Hin He]]|(g' & e & Hin & H)].
      * by left.
      * right. destruct He as [e He]. exists g, e. split; [apply list_elem_of_here|].
        split; [by eapply rangeKeys_sound|done].
      * right. exists g', e. split; [by apply list_elem_of_further|done].
    + rewrite Hro, Hro1. intros [Hm|(g' & e & Hin & Hown & He)]; [by left; left|].
      apply elem_of_cons in Hin as [[= ->]|Hin].
      * left. right. split; [by apply rangeKeys_complete|by exists e].
      * right. by exists g', e.
    + rewrite Hrtm, Hrtm1. intros [[Hm|(t & team & Hin & H)]|(g' & t & team & Hin & H)].
      * by left.
      * right. exists g, t, team. split; [apply list_elem_of_here|].
        split; [by eapply rangeKeys_sound|done].
      * right. exists g', t, team. split; [by apply list_elem_of_further|done].
    + rewrite Hrtm, Hrtm1. intros [Hm|(g' & t & team & Hin & Ht & H)]; [by left; left|].
      apply elem_of_cons in Hin as [[= ->]|Hin].
      * left. right. exists t, team. split; [by apply rangeKeys_complete|done].
      * right. by exists g', t, team.
  - cbn [groupsLoop] in H. apply IH in H. destruct r as [err|[ro' rtm']].
    + destruct H as (g' & t & e & Hin & H). exists g', t, e.
      split; [by apply list_elem_of_further|done].
    + destruct H as (Hall' & Hro & Hrtm). repeat split.
      * intros g' t Hin. apply elem_of_cons in Hin as [[=]|Hin]. by eauto.
      * rewrite Hro. intros [?|(g' & e & Hin & H)]; [by left|].
        right. exists g', e. split; [by apply list_elem_of_further|done].
      * rewrite Hro. intros [?|(g' & e & Hin & H)]; [by left|].
        apply elem_of_cons in Hin as [[=]|Hin]. right. by exists g', e.
      * rewrite Hrtm. intros [?|(g' & t & team & Hin & H)]; [by left|].
        right. exists g', t, team. split; [by apply list_elem_of_further|done].
      * rewrite Hrtm. intros [?|(g' & t & team & Hin & H)]; [by left|].
        apply elem_of_cons in Hin as [[=]|Hin]. right. by exists g', t, team.
Qed.

(** X13. With a team store that answers from a table, a successful
    resolution puts an alias into [requiredOwners] exactly when some
    declaration lists it as an owner, the team store does not resolve it as
    a team, and it is not the alias of the author. *)
Theorem requiredOwners_content {W} (rt : Runtime W) (a : AutoReviewer W)
    (table : string → error + Team) (pr : PullRequest) (st st' : State W)
    (ro rtm : gmap string bool) (groups : list (option ReviewerGroup)) (w1 w2 : W)
    (creator : option Reviewer) (err : option error) :
  RangeSound rt →
  AnswersFrom (TeamStore a) table →
  GetRequiredReviewerGroups rt pr (world st) = (inr groups, w1) →
  GetReviewerByADOID (ReviewerStore a) (CreatedById pr) w1 = ((creator, err), w2) →
  resolvePools rt a pr st = (Ret (inr (ro, rtm)), st') →
  ∀ k, ro !! k = Some true ↔
       Alias <$> creator ≠ Some k ∧
       ∃ g e, Some g ∈ groups ∧ is_Some (Owners g !! k) ∧ table k = inl e.
Proof.
  intros Hsound Htable Hg Hc Hres k.
  apply resolvePools_inr in Hres
    as (groups' & w1' & c & w2' & ro0 & rtm0 & Hg' & Hc' & _ & Hloop & -> & _).
  rewrite Hg in Hg'. injection Hg' as <- <-.
  rewrite Hc in Hc'. injection Hc' as <- <-.
  apply (groupsLoop_table rt a table) in Hloop as (_ & Hro & _); [|done..].
  specialize (Hro k). rewrite lookup_empty in Hro.
  destruct creator as [c|]; simpl.
  - rewrite lookup_delete_Some, Hro. split.
    + intros [Hne [?|H]]; [done|]. split; [congruence|done].
    + intros [Hne H]. split; [congruence|by right].
  - rewrite Hro. split.
    + intros [?|H]; [done|]. by split.
    + intros [_ H]. by right.
Qed.

(** X14. Under the same conditions an alias is in [requiredTeamMembers]
    exactly when it is a member of a team some declaration refers to, is
    not in [requiredOwners], and is not the alias of the author. *)
Theorem requiredTeamMembers_content {W} (rt : Runtime W) (a : AutoReviewer W)
    (table : string → error + Team) (pr : PullRequest) (st st' : State W)
    (ro rtm : gmap string bool) (groups : list (option ReviewerGroup)) (w1 w2 : W)
    (creator : option Reviewer) (err : option error) :
  RangeSound rt →
  AnswersFrom (TeamStore a) table →
  GetRequiredReviewerGroups rt pr (world st) = (inr groups, w1) →
  GetReviewerByADOID (ReviewerStore a) (CreatedById pr) w1 = ((creator, err), w2) →
  resolvePools rt a pr st = (Ret (inr (ro, rtm)), st') →
  ∀ k, rtm !! k = Some true ↔
       ro !! k = None ∧ Alias <$> creator ≠ Some k ∧
       ∃ g t team, Some g ∈ groups ∧ is_Some (Teams g !! t) ∧
                   table t = inr team ∧ k ∈ Members team.
Proof.
  intros Hsound Htable Hg Hc Hres k.
  apply resolvePools_inr in Hres
    as (groups' & w1' & c & w2' & ro0 & rtm0 & Hg' & Hc' & _ & Hloop & Hro & ->).
  rewrite Hg in Hg'. injection Hg' as <- <-.
  rewrite Hc in Hc'. injection Hc' as <- <-.
  apply (groupsLoop_table rt a table) in Hloop as (_ & _ & Hrtm); [|done..].
  specialize (Hrtm k). rewrite lookup_empty in Hrtm.
  unfold dropOwners. rewrite foldl_delete_lookup.
  assert (k ∈ rangeKeys rt ro ↔ ro !! k ≠ None) as Hin.
  { rewrite not_eq_None_Some. split; [by apply rangeKeys_sound|].
    by apply rangeKeys_complete. }
  case_bool_decide as Hk.
  - split; [done|]. intros [Hnone _]. by apply Hin in Hk.
  - assert (ro !! k = None) as Hnone.
    { destruct (ro !! k) eqn:E; [|done]. exfalso. apply Hk, Hin. congruence. }
    destruct creator as [c|]; simpl.
    + rewrite lookup_delete_Some, Hrtm. split.
      * intros [Hne [?|H]]; [done|]. repeat split; [done|congruence|done].
      * intros (_ & Hne & H). split; [congruence|by right].
    + rewrite Hrtm. split.
      * intros [?|H]; [done|]. by repeat split.
      * intros (_ & _ & H). by right.
Qed.

(** X15. A team reference the store cannot resolve is never skipped: once
    the declarations and the author are read, resolution returns either the
    wrapped lookup error of some referenced team, or pools, and pools only
    when every referenced team resolved. *)
Theorem resolvePools_unknown_team_is_fatal {W} (rt : Runtime W) (a : AutoReviewer W)
    (table : string → error + Team) (pr : PullRequest) (st : State W)
    (groups : list (option ReviewerGroup)) (w1 w2 : W)
    (creator : option Reviewer) (err : option error) :
  RangeSound rt →
  AnswersFrom (TeamStore a) table →
  GetRequiredReviewerGroups rt pr (world st) = (inr groups, w1) →
  GetReviewerByADOID (ReviewerStore a) (CreatedById pr) w1 = ((creator, err), w2) →
  hardError err = None →
  ∃ r st',
    resolvePools rt a pr st = (Ret r, st') ∧
    match r with
    | inl failure =>
        ∃ g t e, Some g ∈ groups ∧ is_Some (Teams g !! t) ∧ table t = inl e ∧
                 failure = Wrap e "failed to get team %q" [ArgStr t]
    | inr _ =>
        ∀ g t, Some g ∈ groups → is_Some (Teams g !! t) → ∃ team, table t = inr team
    end.
Proof.
  intros Hsound Htable Hg Hc Hsoft.
  unfold resolvePools, bind, call, ret. rewrite Hg. simpl. rewrite Hc. simpl.
  rewrite Hsoft.
  match goal with
  | |- context [groupsLoop rt a groups ∅ ∅ ?s] =>
      destruct (groupsLoop_returns rt a groups ∅ ∅ s) as (r & st1 & Hloop)
  end.
  rewrite Hloop.
  apply (groupsLoop_table rt a table) in Hloop; [|done..].
  destruct r as [failure|[ro rtm]].
  - by eexists (inl failure), _.
  - destruct Hloop as (Hall & _). by eexists (inr _), _.
Qed.

(** X16. The candidate list handed to the reviewer store holds exactly the
    aliases mapped to true, each once. *)
Theorem getAliases_exact {W} (rt : Runtime W) (reviewers : gmap string bool) :
  RangeSound rt →
  (∀ alias, alias ∈ getAliases rt reviewers ↔ reviewers !! alias = Some true) ∧
  NoDup (getAliases rt reviewers).
Proof.
  intros Hsound. unfold getAliases. split.
  - intros alias. rewrite list_elem_of_In, List.filter_In, <- list_elem_of_In.
    rewrite bool_decide_eq_true. split; [by intros [_ ?]|].
    intros Hk. split; [|done]. by apply rangeKeys_complete.
  - apply NoDup_ListNoDup, List.NoDup_filter, NoDup_ListNoDup.
    rewrite (Hsound reviewers). apply NoDup_fst_map_to_list.
Qed.

(** When the pop on the owners succeeds and the pop on the team
    members fails with an error other than not-found, the selection returns
    that error with empty lists: the owner the store already popped is
    dropped. *)
Lemma selectReviewers_team_failure_drops_owner {W} (rt : Runtime W)
    (a : AutoReviewer W) (ro rtm : gmap string bool) (st : State W)
    (owner : Reviewer) (e1 : option error) (w1 : W)
    (teamMember : option Reviewer) (e2 : error) (w2 : W) :
  PopLRUReviewer (ReviewerStore a) (getAliases rt ro) (world st)
    = ((Some owner, e1), w1) →
  hardError e1 = None →
  PopLRUReviewer (ReviewerStore a) (getAliases rt rtm) w1 = ((teamMember, Some e2), w2) →
  errors_Is_ErrNotFound e2 = false →
  selectReviewers rt a ro rtm st
  = (Ret ([], [], Some (Wrap e2 "failed to get team reviewer for members: %v"
                          [ArgStrs (getAliases rt rtm)])),
     mkState w2 (trace st ++ [CallPopLRUReviewer (getAliases rt ro);
                              CallPopLRUReviewer (getAliases rt rtm)])).
Proof.
  intros Ho Hsoft Ht Hhard. unfold selectReviewers, bind, call, ret.
  rewrite Ho. simpl. rewrite Hsoft. simpl. rewrite Ht. simpl. rewrite Hhard.
  by rewrite <- app_assoc.
Qed.

Lemma mutations_all (l : list Event) :
  Forall (λ ev, isMutation ev = true) l → mutations l = l.
Proof.
  induction 1 as [|ev l Hev _ IH]; [done|]. cbn. rewrite Hev. by f_equal.
Qed.

Lemma mutations_prefix_reviewerEvents (evs : list Event) (repoID : string) (prID : Z)
    (isRequired : bool) (reviewers : list Reviewer) :
  evs `prefix_of` reviewerEvents repoID prID isRequired reviewers →
  mutations evs = evs.
Proof.
  intros [k Hk]. apply mutations_all.
  assert (Forall (λ ev, isMutation ev = true)
            (reviewerEvents repoID prID isRequired reviewers)) as Hall.
  { unfold reviewerEvents. apply Forall_forall. intros ev Hin.
    apply list_elem_of_fmap in Hin as (r & -> & _). done. }
  rewrite Hk in Hall. by apply Forall_app in Hall as [? _].
Qed.

(** X17. When the platform refuses a reviewer, [balanceReview] returns the
    wrapped error at once: the reviewers before the refused one stay added,
    and neither a comment is posted nor a hook called. *)
Theorem balanceReview_reviewer_refused {W} (rt : Runtime W) (a : AutoReviewer W)
    (pr : PullRequest) (st st1 st2 st3 : State W) (required optional : list Reviewer)
    (err : error) :
  ContainsReviewBalancerComment a (RepositoryId pr) (PullRequestId pr) st
    = (Ret false, st1) →
  getReviewers rt a pr st1 = (Ret (required, optional, None), st2) →
  AddReviewers a (PullRequestId pr) (RepositoryId pr) required optional st2
    = (Ret (Some err), st3) →
  balanceReview rt a pr st
    = (Ret (Some (Wrap err "failed to add reviewers to PR" [])), st3) ∧
  ∃ added,
    added `prefix_of` reviewerEvents (RepositoryId pr) (PullRequestId pr) true required ∧
    mutations (trace st3) = mutations (trace st) ++ added.
Proof.
  intros Hguard Hget Hadd.
  pose proof (getReviewers_optional_nil _ _ _ _ _ _ _ _ Hget) as ->.
  pose proof (balanceReview_prelude_quiet _ _ _ _ _ _ _ _ Hguard Hget) as Hquiet.
  split.
  - unfold balanceReview, bind. by rewrite Hguard, Hget, Hadd.
  - unfold AddReviewers, bind in Hadd.
    destruct (addReviewersLoop_trace a (PullRequestId pr) (RepositoryId pr) true
                "failed to add required reviewer %s with error %w" required st2)
      as ([e|] & st3' & evs & Hrun & Ht3 & Hpre & _); rewrite Hrun in Hadd.
    + injection Hadd as _ <-. exists evs. split; [done|].
      rewrite Ht3, mutations_app, Hquiet. f_equal.
      by eapply mutations_prefix_reviewerEvents.
    + cbn in Hadd. discriminate.
Qed.

(** *** Filters *)

(** X18. Built without a filter list, a reviewer lets a pull request
    through exactly when its title does not contain [WIP], its target
    reference folds to [refs/heads/master], and it is not flagged as a
    draft; a missing draft flag counts as not a draft. *)
Theorem default_pipeline_passes_iff {W} (rt : Runtime W) (gc : GitClient W)
    (bot : string) (repo : Repository) (repoStore : RepositoryStoreI W)
    (reviewerStore : ReviewerStoreI W) (teamStore : TeamStoreI W)
    (triggers : option (list (ReviewerTrigger W))) (pr : PullRequest) :
  shouldFilter (NewAutoReviewer rt gc bot repo repoStore reviewerStore teamStore
                  (mkOptions None triggers)).1 pr = false
  ↔ Contains (Title pr) "WIP" = false ∧
    EqualFold (unicodeEqualFold rt) (TargetRefName pr) "refs/heads/master" = true ∧
    IsDraft pr ≠ Some true.
Proof.
  rewrite NewAutoReviewer_nil_filters, !orb_false_iff.
  unfold filterWIP, filterMasterBranchOnly, filterDraft, masterRef.
  destruct (Contains (Title pr) "WIP"), (EqualFold _ _ _), (IsDraft pr) as [[|]|];
    simpl; intuition congruence.
Qed.

Lemma HasPrefix_lower (t s : string) :
  HasPrefix t s = true → HasPrefix (ToLowerASCII t) (ToLowerASCII s) = true.
Proof.
  revert t. induction s as [|b s IH]; intros [|c t] H; try done.
  cbn in *. destruct (Ascii.eqb_spec c b) as [->|]; [|done].
  rewrite Ascii.eqb_refl. by apply IH.
Qed.

Lemma Contains_lower (t s : string) :
  Contains t s = true → Contains (ToLowerASCII t) (ToLowerASCII s) = true.
Proof.
  induction t as [|c t IH]; cbn [Contains ToLowerASCII]; intros H.
  - apply orb_true_iff in H as [H|]; [|done].
    apply HasPrefix_lower in H. rewrite orb_false_r. exact H.
  - apply orb_true_iff in H as [H|H].
    + apply HasPrefix_lower in H. apply orb_true_iff. left. exact H.
    + rewrite (IH H). apply orb_true_r.
Qed.

Lemma HasPrefix_lower_inv (t p : string) :
  HasPrefix (ToLowerASCII t) p = true →
  ∃ s, ToLowerASCII s = p ∧ HasPrefix t s = true.
Proof.
  revert t. induction p as [|b p IH]; intros t H.
  - exists "". split; [done|]. by destruct t.
  - destruct t as [|c t]; [done|]. cbn in H.
    destruct (Ascii.eqb_spec (lowerByte c) b) as [<-|]; [|done].
    destruct (IH t H) as (s & <- & Hs). exists (String c s). split; [done|].
    cbn. by rewrite Ascii.eqb_refl.
Qed.

Lemma Contains_lower_inv (t p : string) :
  Contains (ToLowerASCII t) p = true →
  ∃ s, ToLowerASCII s = p ∧ Contains t s = true.
Proof.
  induction t as [|c t IH]; cbn [Contains ToLowerASCII]; intros H.
  - apply orb_true_iff in H as [H|]; [|done].
    destruct (HasPrefix_lower_inv "" p H) as (s & <- & Hs). exists s.
    split; [done|]. cbn [Contains]. by rewrite Hs.
  - apply orb_true_iff in H as [H|H].
    + destruct (HasPrefix_lower_inv (String c t) p H) as (s & <- & Hs). exists s.
      split; [done|]. cbn [Contains]. by rewrite Hs.
    + destruct (IH H) as (s & <- & Hs). exists s. split; [done|].
      cbn [Contains]. rewrite Hs. apply orb_true_r.
Qed.

(** X19. [filterBotV2PRs] excludes a missing pull request, and lets one
    with an ASCII title through exactly when the title contains [botv2] in
    some capitalisation. *)
Theorem filterBotV2PRs_any_capitalisation (unicodeToLower : string → string)
    (pr : PullRequest) :
  isASCII (Title pr) = true →
  filterBotV2PRs unicodeToLower None = true ∧
  (filterBotV2PRs unicodeToLower (Some pr) = false ↔
   ∃ s, ToLowerASCII s = "botv2" ∧ Contains (Title pr) s = true).
Proof.
  intros Hascii. split; [done|]. unfold filterBotV2PRs, ToLower. rewrite Hascii.
  destruct (Contains (ToLowerASCII (Title pr)) "botv2") eqn:Hc.
  - split; [|done]. intros _. by apply Contains_lower_inv.
  - split; [done|]. intros (s & Hs & Hin). apply Contains_lower in Hin.
    rewrite Hs in Hin. congruence.
Qed.

(** ** The further properties at work on the simulated platform *)

Lemma ContainsReviewBalancerComment_iff_witness :
  ∃ found,
    ContainsReviewBalancerComment (Faults.withClient Faults.settledGitClient) "repo-1" 7
      (Sim.start Sim.w0)
      = (Ret found, mkState Sim.w0 ([] ++ [CallGetThreads "repo-1" 7])) ∧
    (found = true ↔
     ∃ ths thread comment content,
       Some [mkThread [mkComment None;
                       mkComment (Some "CR Balancer b03f5f7f11d50a3a")]] = Some ths ∧
       thread ∈ ths ∧ comment ∈ Comments thread ∧
       Content comment = Some content ∧
       Contains content (botIdentifier (Faults.withClient Faults.settledGitClient)) = true).
Proof.
  apply (ContainsReviewBalancerComment_iff (Faults.withClient Faults.settledGitClient)
           "repo-1" 7 (Sim.start Sim.w0)).
  reflexivity.
Defined.

Lemma posted_comment_stops_next_balancing_witness :
  balanceReview Sim.runtime Sim.reviewer Sim.pr7
    (Sim.start (world (Run Sim.runtime Sim.reviewer (Sim.start Sim.wOwnersOnly)).2))
  = (Ret None,
     mkState (world (Run Sim.runtime Sim.reviewer (Sim.start Sim.wOwnersOnly)).2)
       ([] ++ [CallGetThreads "repo-1" 7])).
Proof.
  destruct (posted_comment_stops_next_balancing Sim.runtime Sim.reviewer Sim.pr7
              [Sim.alice] (Sim.start Sim.wOwnersOnly)) as (content & Hposted & Hnext).
  apply app_inj_tail in Hposted as [_ Hcontent].
  eapply (Hnext (Sim.start (world (Run Sim.runtime Sim.reviewer
                                     (Sim.start Sim.wOwnersOnly)).2))).
  - reflexivity.
  - apply list_elem_of_here.
  - injection Hcontent as <-. apply list_elem_of_here.
Defined.

Lemma AddReviewers_stops_at_refusal_witness :
  AddReviewers (Faults.withClient Faults.pickyGitClient) 7 "repo-1"
    ([Sim.alice] ++ Sim.carol :: [Sim.bob]) [Sim.bob] (Sim.start Sim.w0)
  = (Ret (Some (Wrap (ErrOther "identity not found")
                  "failed to add required reviewer %s with error %w" [ArgStr "carol"])),
     mkState
       (Sim.mkWorld (Sim.teams Sim.w0) (Sim.reviewers Sim.w0) (Sim.groupsOf Sim.w0)
          (Sim.openPullRequests Sim.w0) [] [(7%Z, "id-alice")] [] false)
       ([CallCreatePullRequestReviewer "repo-1" 7 "id-alice" true] ++
        [CallCreatePullRequestReviewer "repo-1" 7 "id-carol" true])).
Proof.
  apply (AddReviewers_stops_at_refusal (Faults.withClient Faults.pickyGitClient) 7 "repo-1"
           [Sim.alice] [Sim.bob] [Sim.bob] Sim.carol (Sim.start Sim.w0)
           (mkState
              (Sim.mkWorld (Sim.teams Sim.w0) (Sim.reviewers Sim.w0) (Sim.groupsOf Sim.w0)
                 (Sim.openPullRequests Sim.w0) [] [(7%Z, "id-alice")] [] false)
              [CallCreatePullRequestReviewer "repo-1" 7 "id-alice" true])).
  - reflexivity.
  - reflexivity.
Defined.

Lemma balanceReview_success_mutations_witness :
  ∃ st',
    balanceReview Sim.runtime (Faults.withClient Sim.gitClient) Sim.pr7 (Sim.start Sim.w0)
      = (Ret None, st') ∧
    mutations (trace st') =
      mutations (trace (Sim.start Sim.w0)) ++
      reviewerEvents "repo-1" 7 true [Sim.alice; Sim.carol] ++
      [CallCreateThread "repo-1" 7
         (reviewerComment defaultBotIdentifier [Sim.alice; Sim.carol])] ++
      replicate 2 (CallReviewerTrigger [Sim.alice; Sim.carol] [] "https://dev.example/pr/7").
Proof.
  eexists. split; [vm_compute; reflexivity|].
  eapply (balanceReview_success_mutations Sim.runtime (Faults.withClient Sim.gitClient)
            Sim.pr7 (Sim.start Sim.w0) _ _ _ [Sim.alice; Sim.carol] []).
  - vm_compute; reflexivity.
  - vm_compute; reflexivity.
  - vm_compute; reflexivity.
Defined.

Lemma balanceReview_comment_refused_witness :
  ∃ st4,
    balanceReview Sim.runtime (Faults.withClient Faults.muteGitClient) Sim.pr7
      (Sim.start Sim.w0)
      = (Ret (Some (Wrap (Wrap (ErrOther "comment rejected")
                            "failed to add reviewer comment" [])
                      "failed to add reviewer comment" [])), st4) ∧
    Sim.assigned (world st4) = [(7%Z, "id-alice"); (7%Z, "id-carol")] ∧
    Sim.discussions (world st4) = [] ∧ Sim.notified (world st4) = [].
Proof.
  edestruct (balanceReview_comment_refused Sim.runtime
               (Faults.withClient Faults.muteGitClient) Sim.pr7 (Sim.start Sim.w0))
    as [Hrun _].
  - vm_compute; reflexivity.
  - vm_compute; reflexivity.
  - vm_compute; reflexivity.
  - vm_compute; reflexivity.
  - eexists. split; [exact Hrun|]. vm_compute. repeat split.
Defined.

Lemma balanceReview_resolution_error_witness :
  ∃ err st2,
    balanceReview Sim.runtime Sim.reviewer Sim.pr7 (Sim.start Sim.wUnknownTeam)
      = (Ret (Some (Wrap err "failed to get reviewers" [])), st2) ∧
    mutations (trace st2) = mutations (trace (Sim.start Sim.wUnknownTeam)).
Proof.
  eexists _, _.
  eapply (balanceReview_resolution_error Sim.runtime Sim.reviewer Sim.pr7
            (Sim.start Sim.wUnknownTeam)).
  - vm_compute; reflexivity.
  - vm_compute; reflexivity.
Defined.

Lemma Run_settled_repository_is_silent_witness :
  ∃ st',
    Run Sim.runtime (Faults.withClient Faults.settledGitClient) (Sim.start Sim.w0)
      = (Ret None, st') ∧
    mutations (trace st') = mutations (trace (Sim.start Sim.w0)) ∧
    resolutions (trace st') = resolutions (trace (Sim.start Sim.w0)).
Proof.
  apply (Run_settled_repository_is_silent Sim.runtime
           (Faults.withClient Faults.settledGitClient) (Sim.start Sim.w0)
           [Sim.prWip; Sim.pr7] Sim.w0).
  - reflexivity.
  - intros pr Hin. apply elem_of_cons in Hin as [->|Hin].
    + left. reflexivity.
    + apply list_elem_of_singleton in Hin as ->. right. intros w.
      eexists _, w. split; reflexivity.
Defined.

Lemma NewDefaultManager_enabled_only_witness :
  ∃ m,
    NewDefaultManager Sim.runtime Faults.listingStore Sim.reviewerStore Sim.teamStore
      Sim.gitClient (Sim.start Sim.w0)
      = (Ret (inr m), mkState Sim.w0 ([] ++ [CallGetAllRepositories])) ∧
    map Repo (AutoReviewers m)
      = List.filter Enabled [Sim.repo; Faults.idleRepo; Faults.otherRepo] ∧
    (∀ repo, repo ∈ map Repo (AutoReviewers m) ↔
             repo ∈ [Sim.repo; Faults.idleRepo; Faults.otherRepo] ∧ Enabled repo = true) ∧
    (∀ a, a ∈ AutoReviewers m →
       botIdentifier a = defaultBotIdentifier ∧
       Filters (AROptions a) = Some (defaultFilters Sim.runtime) ∧
       ReviewerTriggers (AROptions a) = None).
Proof.
  apply (NewDefaultManager_enabled_only Sim.runtime Faults.listingStore Sim.reviewerStore
           Sim.teamStore Sim.gitClient (Sim.start Sim.w0)
           [Sim.repo; Faults.idleRepo; Faults.otherRepo] Sim.w0).
  reflexivity.
Defined.

Lemma ManagerRun_reconcile_failure_witness :
  ManagerRun Faults.lateRuntime
    (mkManager ([] ++ Sim.reviewer :: [Sim.reviewer]) Sim.repositoryStore)
    (Sim.start Sim.w0)
  = (Ret (Some (ErrOther "reconcile failed")),
     mkState Sim.w0 ([] ++ [CallReconcile Sim.repo])).
Proof.
  apply (ManagerRun_reconcile_failure Faults.lateRuntime [] [Sim.reviewer] Sim.reviewer
           Sim.repositoryStore (Sim.start Sim.w0) (Sim.start Sim.w0)
           (ErrOther "reconcile failed") Sim.repo Sim.w0).
  - reflexivity.
  - reflexivity.
  - reflexivity.
Defined.

Lemma sim_table_answers : AnswersFrom Faults.tableTeamStore Faults.tableOf.
Proof. intros name w. reflexivity. Qed.

Lemma requiredOwners_content_witness :
  ∃ ro rtm st',
    resolvePools Sim.runtime Faults.withTable Sim.pr7 (Sim.start Sim.w0)
      = (Ret (inr (ro, rtm)), st') ∧
    ∀ k, ro !! k = Some true ↔
         Alias <$> Some Sim.bob ≠ Some k ∧
         ∃ g e, Some g ∈ Sim.groupsOf Sim.w0 ∧ is_Some (Owners g !! k) ∧
                Faults.tableOf k = inl e.
Proof.
  eexists _, _, _. split; [vm_compute; reflexivity|].
  eapply (requiredOwners_content Sim.runtime Faults.withTable Faults.tableOf Sim.pr7
            (Sim.start Sim.w0) _ _ _ (Sim.groupsOf Sim.w0) Sim.w0 Sim.w0
            (Some Sim.bob) None).
  - intros m. reflexivity.
  - intros name w. reflexivity.
  - reflexivity.
  - reflexivity.
  - vm_compute; reflexivity.
Defined.

Lemma requiredTeamMembers_content_witness :
  ∃ ro rtm st',
    resolvePools Sim.runtime Faults.withTable Sim.pr7 (Sim.start Sim.w0)
      = (Ret (inr (ro, rtm)), st') ∧
    ∀ k, rtm !! k = Some true ↔
         ro !! k = None ∧ Alias <$> Some Sim.bob ≠ Some k ∧
         ∃ g t team, Some g ∈ Sim.groupsOf Sim.w0 ∧ is_Some (Teams g !! t) ∧
                     Faults.tableOf t = inr team ∧ k ∈ Members team.
Proof.
  eexists _, _, _. split; [vm_compute; reflexivity|].
  eapply (requiredTeamMembers_content Sim.runtime Faults.withTable Faults.tableOf Sim.pr7
            (Sim.start Sim.w0) _ _ _ (Sim.groupsOf Sim.w0) Sim.w0 Sim.w0
            (Some Sim.bob) None).
  - intros m. reflexivity.
  - intros name w. reflexivity.
  - reflexivity.
  - reflexivity.
  - vm_compute; reflexivity.
Defined.

Lemma resolvePools_unknown_team_is_fatal_witness :
  ∃ r st',
    resolvePools Sim.runtime Faults.withTable Sim.pr7 (Sim.start Sim.wUnknownTeam)
      = (Ret r, st') ∧
    match r with
    | inl failure =>
        ∃ g t e, Some g ∈ Sim.groupsOf Sim.wUnknownTeam ∧ is_Some (Teams g !! t) ∧
                 Faults.tableOf t = inl e ∧
                 failure = Wrap e "failed to get team %q" [ArgStr t]
    | inr _ =>
        ∀ g t, Some g ∈ Sim.groupsOf Sim.wUnknownTeam → is_Some (Teams g !! t) →
               ∃ team, Faults.tableOf t = inr team
    end.
Proof.
  apply (resolvePools_unknown_team_is_fatal Sim.runtime Faults.withTable Faults.tableOf
           Sim.pr7 (Sim.start Sim.wUnknownTeam) (Sim.groupsOf Sim.wUnknownTeam)
           Sim.wUnknownTeam Sim.wUnknownTeam (Some Sim.bob) None).
  - intros m. reflexivity.
  - intros name w. reflexivity.
  - reflexivity.
  - reflexivity.
  - reflexivity.
Defined.

Lemma getAliases_exact_witness :
  (∀ alias, alias ∈ getAliases Sim.runtime {["alice" := true; "bob" := false]}
            ↔ ({["alice" := true; "bob" := false]} : gmap string bool) !! alias
              = Some true) ∧
  NoDup (getAliases Sim.runtime {["alice" := true; "bob" := false]}).
Proof.
  apply (getAliases_exact Sim.runtime {["alice" := true; "bob" := false]}).
  intros m. reflexivity.
Defined.

Lemma balanceReview_reviewer_refused_witness :
  ∃ st3,
    balanceReview Sim.runtime (Faults.withClient Faults.pickyGitClient) Sim.pr7
      (Sim.start Sim.w0)
      = (Ret (Some (Wrap (Wrap (ErrOther "identity not found")
                            "failed to add required reviewer %s with error %w"
                            [ArgStr "carol"])
                      "failed to add reviewers to PR" [])), st3) ∧
    Sim.assigned (world st3) = [(7%Z, "id-alice")] ∧
    Sim.discussions (world st3) = [] ∧ Sim.notified (world st3) = [].
Proof.
  edestruct (balanceReview_reviewer_refused Sim.runtime
               (Faults.withClient Faults.pickyGitClient) Sim.pr7 (Sim.start Sim.w0))
    as [Hrun _].
  - vm_compute; reflexivity.
  - vm_compute; reflexivity.
  - vm_compute; reflexivity.
  - eexists. split; [exact Hrun|]. vm_compute. repeat split.
Defined.

Lemma filterBotV2PRs_any_capitalisation_witness :
  filterBotV2PRs (λ s, s) None = true ∧
  (filterBotV2PRs (λ s, s) (Some Faults.prBot) = false ↔
   ∃ s, ToLowerASCII s = "botv2" ∧ Contains (Title Faults.prBot) s = true).
Proof.
  apply (filterBotV2PRs_any_capitalisation (λ s, s) Faults.prBot). reflexivity.
Defined.

Lemma filterMasterBranchOnly_ascii_witness :
  filterMasterBranchOnly Sim.runtime Sim.prShouting
  = negb (String.eqb (ToLowerASCII (TargetRefName Sim.prShouting)) "refs/heads/master").
Proof.
  apply (filterMasterBranchOnly_ascii Sim.runtime Sim.prShouting). reflexivity.
Defined.

Lemma resolvePools_unknown_author_witness :
  ∃ ro rtm st' rtm0,
    resolvePools Sim.runtime Sim.reviewer Sim.pr7 (Sim.start Sim.wStrangers)
      = (Ret (inr (ro, rtm)), st') ∧
    ro !! "bob" = Some true ∧
    groupsLoop Sim.runtime Sim.reviewer (Sim.groupsOf Sim.wStrangers) ∅ ∅
      (mkState Sim.wStrangers
         (trace (Sim.start Sim.wStrangers) ++
          [CallGetRequiredReviewerGroups (PullRequestId Sim.pr7)] ++
          [CallGetReviewerByADOID (CreatedById Sim.pr7)]))
      = (Ret (inr (ro, rtm0)), st') ∧
    rtm = dropOwners Sim.runtime ro rtm0.
Proof.
  eexists _, _, _.
  edestruct (resolvePools_unknown_author Sim.runtime Sim.reviewer Sim.pr7
               (Sim.start Sim.wStrangers)) as (rtm0 & Hloop & Hrtm).
  - reflexivity.
  - reflexivity.
  - vm_compute; reflexivity.
  - exists rtm0. split; [vm_compute; reflexivity|].
    split; [vm_compute; reflexivity|]. split; [exact Hloop|exact Hrtm].
Defined.

(** ** Resolution, selection and the branch filter on the whole functions *)

(** *** Errors the stores may answer *)

Lemma errors_Is_WrapsNotFound (e : error) :
  errors_Is_ErrNotFound e = true ↔ WrapsNotFound e.
Proof.
  split.
  - induction e as [|msg|cause IH format args|format args cause _]; cbn; intros H;
      try discriminate.
    + constructor.
    + constructor. by apply IH.
  - induction 1 as [|cause format args _ IH]; [done|exact IH].
Qed.

Lemma hardError_soft (err : option error) :
  NoErrorOrNotFound err → hardError err = None.
Proof.
  intros [->|(e & -> & He)]; [done|].
  apply errors_Is_WrapsNotFound in He. cbn. by rewrite He.
Qed.

(** *** The author, when the store does not know them *)

(** C2, as stated, fails: the reviewer store has no record for the author
    of pull request 7 (identity [id-bob]), the lookup answers not-found,
    which [getReviewers] tolerates, and the alias bob, listed as an owner,
    is still in [requiredOwners] after resolution. *)
Lemma unknown_author_stays_in_requiredOwners :
  let w := Sim.wStrangers in
  CreatedById Sim.pr7 = "id-bob" ∧
  GetReviewerByADOID Sim.reviewerStore "id-bob" w = ((None, Some ErrNotFound), w) ∧
  GetRequiredReviewerGroups Sim.runtime Sim.pr7 w
    = (inr [Some (mkReviewerGroup {["alice" := true; "bob" := true]} ∅)], w) ∧
  ∃ ro rtm st',
    resolvePools Sim.runtime Sim.reviewer Sim.pr7 (Sim.start w)
      = (Ret (inr (ro, rtm)), st') ∧
    ro !! "bob" = Some true ∧
    "bob" ∈ getAliases Sim.runtime ro.
Proof.
  repeat split; try reflexivity.
  eexists _, _, _. split; [vm_compute; reflexivity|].
  split; [vm_compute; reflexivity|].
  vm_compute. apply list_elem_of_further, list_elem_of_here.
Qed.

(** *** Selection *)

Lemma getReviewers_error_nil {W} (rt : Runtime W) (a : AutoReviewer W)
    (pr : PullRequest) (st st' : State W) (required optional : list Reviewer)
    (e : error) :
  getReviewers rt a pr st = (Ret (required, optional, Some e), st') → required = [].
Proof.
  unfold getReviewers, bind. intros H.
  destruct (resolvePools rt a pr st) as [[[e0|[ro rtm]]|e0] st1]; try discriminate.
  - by injection H.
  - unfold selectReviewers, bind, call, ret in H.
    destruct (PopLRUReviewer (ReviewerStore a) (getAliases rt ro) (world st1))
      as [[owner e1] w1]; cbn [fst snd world trace] in H.
    destruct (hardError e1); [by injection H|]. cbn [fst snd world trace] in H.
    destruct (PopLRUReviewer (ReviewerStore a) (getAliases rt rtm) w1)
      as [[teamMember e2] w2]; cbn [fst snd world trace] in H.
    destruct (hardError e2); [by injection H|discriminate].
Qed.

(** C6. Once the pools are resolved, when each of the two pops answers
    without error or with not-found, [getReviewers] returns no error, and
    its required list is what the pop on the owners returned, if anything,
    followed by what the pop on the team members returned, if anything;
    the two pops are the only calls it adds. Whatever it returns, its
    optional list is empty, and with an error its required list is empty
    too. *)
Theorem getReviewers_required_then_optional_empty {W} (rt : Runtime W)
    (a : AutoReviewer W) (pr : PullRequest) (st st1 : State W)
    (ro rtm : gmap string bool)
    (owner teamMember : option Reviewer) (e1 e2 : option error) (w1 w2 : W) :
  resolvePools rt a pr st = (Ret (inr (ro, rtm)), st1) →
  PopLRUReviewer (ReviewerStore a) (getAliases rt ro) (world st1) = ((owner, e1), w1) →
  PopLRUReviewer (ReviewerStore a) (getAliases rt rtm) w1 = ((teamMember, e2), w2) →
  NoErrorOrNotFound e1 →
  NoErrorOrNotFound e2 →
  getReviewers rt a pr st
    = (Ret (option_list owner ++ option_list teamMember, [], None),
       mkState w2 (trace st1 ++ [CallPopLRUReviewer (getAliases rt ro);
                                 CallPopLRUReviewer (getAliases rt rtm)])) ∧
  ∀ required optional err st',
    getReviewers rt a pr st = (Ret (required, optional, err), st') →
    optional = [] ∧ (is_Some err → required = []).
Proof.
  intros Hres Ho Ht Hsoft1 Hsoft2. split.
  - unfold getReviewers, bind. rewrite Hres.
    unfold selectReviewers, bind, call, ret.
    rewrite Ho. cbn [fst snd world trace]. rewrite (hardError_soft e1 Hsoft1).
    cbn [fst snd world trace]. rewrite Ht. cbn [fst snd world trace].
    rewrite (hardError_soft e2 Hsoft2).
    rewrite !appendReviewer_option_list, <- (app_assoc (trace st1)). reflexivity.
  - intros required optional err st' H. split.
    + destruct (getReviewers_returns rt a pr st) as (r' & e' & st'' & Heq).
      rewrite H in Heq. by injection Heq.
    + intros [e ->]. by eapply getReviewers_error_nil.
Qed.

(** *** The branch filter *)

(** C8. With the default filters (no filter list given at construction) a
    pull request whose target reference does not fold to
    [refs/heads/master] is excluded, and one whose target reference does is
    let through by the branch filter. For a reference of ASCII bytes,
    folding is plain case-insensitivity: the pull request is excluded when
    the reference in lower case differs from [refs/heads/master], and the
    branch filter lets it through when it is equal. *)
Theorem default_filters_master_branch_only {W} (rt : Runtime W) (gc : GitClient W)
    (bot : string) (repo : Repository) (repoStore : RepositoryStoreI W)
    (reviewerStore : ReviewerStoreI W) (teamStore : TeamStoreI W)
    (triggers : option (list (ReviewerTrigger W))) (pr : PullRequest) :
  (EqualFold (unicodeEqualFold rt) (TargetRefName pr) "refs/heads/master" = false →
   shouldFilter (NewAutoReviewer rt gc bot repo repoStore reviewerStore teamStore
                   (mkOptions None triggers)).1 pr = true) ∧
  (EqualFold (unicodeEqualFold rt) (TargetRefName pr) "refs/heads/master" = true →
   filterMasterBranchOnly rt pr = false) ∧
  (isASCII (TargetRefName pr) = true →
   (ToLowerASCII (TargetRefName pr) ≠ "refs/heads/master" →
    shouldFilter (NewAutoReviewer rt gc bot repo repoStore reviewerStore teamStore
                    (mkOptions None triggers)).1 pr = true) ∧
   (ToLowerASCII (TargetRefName pr) = "refs/heads/master" →
    filterMasterBranchOnly rt pr = false)).
Proof.
  assert (EqualFold (unicodeEqualFold rt) (TargetRefName pr) "refs/heads/master" = false →
          shouldFilter (NewAutoReviewer rt gc bot repo repoStore reviewerStore teamStore
                          (mkOptions None triggers)).1 pr = true) as Hout.
  { intros Hfold. unfold shouldFilter, NewAutoReviewer. cbn [Filters fst AROptions].
    apply filterLoop_true. exists (filterMasterBranchOnly rt). split.
    - unfold defaultFilters. apply list_elem_of_further, list_elem_of_here.
    - unfold filterMasterBranchOnly, masterRef. by rewrite Hfold. }
  assert (EqualFold (unicodeEqualFold rt) (TargetRefName pr) "refs/heads/master" = true →
          filterMasterBranchOnly rt pr = false) as Hin.
  { intros Hfold. unfold filterMasterBranchOnly, masterRef. by rewrite Hfold. }
  split; [exact Hout|]. split; [exact Hin|].
  intros Hascii.
  pose proof (EqualFold_ascii (unicodeEqualFold rt) (TargetRefName pr)
                "refs/heads/master" Hascii eq_refl) as Hfold.
  change (ToLowerASCII "refs/heads/master") with "refs/heads/master" in Hfold.
  split.
  - intros Hne. apply Hout. rewrite Hfold. by apply String.eqb_neq.
  - intros Heq. apply Hin. rewrite Hfold. by apply String.eqb_eq.
Qed.

(** *** Owners the team store fails on *)







(** *** Only true is ever stored in the pools *)

Lemma onlyTrue_is_Some (m : gmap string bool) (k : string) :
  onlyTrue m → is_Some (m !! k) ↔ m !! k = Some true.
Proof.
  intros Hm. split; [|by eexists].
  intros [v Hv]. by rewrite Hv, (Hm k v Hv).
Qed.

Lemma onlyTrue_delete (m : gmap string bool) (k : string) :
  onlyTrue m → onlyTrue (delete k m).
Proof. intros Hm k' v Hv. apply lookup_delete_Some in Hv as [_ Hv]. by eapply Hm. Qed.

Lemma ownersLoop_onlyTrue {W} (a : AutoReviewer W) (owners : list string)
    (m m' : gmap string bool) (st st' : State W) :
  onlyTrue m → ownersLoop a owners m st = (Ret m', st') → onlyTrue m'.
Proof.
  revert m st. induction owners as [|owner rest IH]; intros m st Hm H.
  - cbn in H. by injection H as <- _.
  - rewrite ownersLoop_cons in H. eapply IH; [|exact H].
    destruct (GetTeam (TeamStore a) owner (world st)).1; [|done].
    intros k v Hv. apply lookup_insert_Some in Hv as [[_ <-]|[_ Hv]]; [done|].
    by eapply Hm.
Qed.

Lemma teamsLoop_onlyTrue {W} (a : AutoReviewer W) (teamNames : list string)
    (m m' : gmap string bool) (st st' : State W) :
  onlyTrue m → teamsLoop a teamNames m st = (Ret (inr m'), st') → onlyTrue m'.
Proof.
  revert m st. induction teamNames as [|teamName rest IH]; intros m st Hm H.
  - cbn in H. by injection H as <- _.
  - rewrite teamsLoop_cons in H. cbn zeta in H.
    destruct (GetTeam (TeamStore a) teamName (world st)).1 as [e|team]; [discriminate|].
    eapply IH; [|exact H]. intros k v Hv. rewrite addMembers_lookup in Hv.
    case_bool_decide; [congruence|]. by eapply Hm.
Qed.

Lemma groupsLoop_onlyTrue {W} (rt : Runtime W) (a : AutoReviewer W)
    (groups : list (option ReviewerGroup)) (ro rtm ro' rtm' : gmap string bool)
    (st st' : State W) :
  onlyTrue ro → onlyTrue rtm →
  groupsLoop rt a groups ro rtm st = (Ret (inr (ro', rtm')), st') →
  onlyTrue ro' ∧ onlyTrue rtm'.
Proof.
  revert ro rtm st. induction groups as [|[g|] rest IH]; intros ro rtm st Hro Hrtm H.
  - cbn in H. by injection H as <- <- _.
  - cbn [groupsLoop] in H. unfold bind in H.
    destruct (teamsLoop a (rangeKeys rt (Teams g)) rtm st) as [[[e|rtm1]|e] st1] eqn:Ht;
      try discriminate.
    destruct (ownersLoop a (rangeKeys rt (Owners g)) ro st1) as [[ro1|e] st2] eqn:Ho;
      try discriminate.
    apply (IH ro1 rtm1 st2); [| |exact H].
    + eapply ownersLoop_onlyTrue; [exact Hro|exact Ho].
    + eapply teamsLoop_onlyTrue; [exact Hrtm|exact Ht].
  - cbn [groupsLoop] in H. apply (IH ro rtm st); [exact Hro|exact Hrtm|exact H].
Qed.

(** C3, amended. For a team store that answers from a table, an owner
    entry whose string the table resolves as a team is skipped: the string
    is not a key of [requiredOwners], and the team is not expanded on its
    account, since the pools hold nothing but this: [requiredOwners] the
    listed owners for which the lookup fails, [requiredTeamMembers] the
    members of the teams referred to with the group marker that are not
    owners, in both cases without the author. *)
Theorem resolvePools_skips_team_named_owner {W} (rt : Runtime W) (a : AutoReviewer W)
    (table : string → error + Team) (pr : PullRequest) (st st' : State W)
    (ro rtm : gmap string bool) (groups : list (option ReviewerGroup)) (w1 w2 : W)
    (creator : option Reviewer) (err : option error) (name : string) (team : Team) :
  RangeSound rt →
  AnswersFrom (TeamStore a) table →
  GetRequiredReviewerGroups rt pr (world st) = (inr groups, w1) →
  GetReviewerByADOID (ReviewerStore a) (CreatedById pr) w1 = ((creator, err), w2) →
  resolvePools rt a pr st = (Ret (inr (ro, rtm)), st') →
  table name = inr team →
  ro !! name = None ∧
  (∀ k, is_Some (ro !! k) ↔
        Alias <$> creator ≠ Some k ∧
        ∃ g e, Some g ∈ groups ∧ is_Some (Owners g !! k) ∧ table k = inl e) ∧
  (∀ k, is_Some (rtm !! k) ↔
        ro !! k = None ∧ Alias <$> creator ≠ Some k ∧
        ∃ g t team', Some g ∈ groups ∧ is_Some (Teams g !! t) ∧
                     table t = inr team' ∧ k ∈ Members team').
Proof.
  intros Hsound Htable Hg Hc Hres Hteam.
  apply resolvePools_inr in Hres
    as (groups' & w1' & c & w2' & ro0 & rtm0 & Hg' & Hc' & _ & Hloop & Hro & Hrtm).
  rewrite Hg in Hg'. injection Hg' as <- <-.
  rewrite Hc in Hc'. injection Hc' as <- <-.
  assert (onlyTrue ro0 ∧ onlyTrue rtm0) as [Hro0 Hrtm0].
  { eapply groupsLoop_onlyTrue; [| |exact Hloop]; by intros k v; rewrite lookup_empty. }
  apply (groupsLoop_table rt a table) in Hloop as (_ & Hcro & Hcrtm); [|done..].
  assert (onlyTrue ro ∧
          ∀ k, ro !! k = Some true ↔
               Alias <$> creator ≠ Some k ∧
               ∃ g e, Some g ∈ groups ∧ is_Some (Owners g !! k) ∧ table k = inl e)
    as [Hro1 Hro2].
  { rewrite Hro. destruct creator as [cr|]; cbn.
    - split; [by apply onlyTrue_delete|]. intros k.
      rewrite lookup_delete_Some, (Hcro k), lookup_empty. split.
      + intros [Hne [?|H]]; [done|]. split; [congruence|done].
      + intros [Hne H]. split; [congruence|by right].
    - split; [done|]. intros k. rewrite (Hcro k), lookup_empty. split.
      + intros [?|H]; [done|]. by split.
      + intros [_ H]. by right. }
  assert (∀ k, k ∈ rangeKeys rt ro ↔ ro !! k ≠ None) as Hkeys.
  { intros k. rewrite not_eq_None_Some. split; [by apply rangeKeys_sound|].
    by apply rangeKeys_complete. }
  assert (onlyTrue (removeCreator creator ro0 rtm0).2 ∧
          ∀ k, (removeCreator creator ro0 rtm0).2 !! k = Some true ↔
               Alias <$> creator ≠ Some k ∧
               ∃ g t team', Some g ∈ groups ∧ is_Some (Teams g !! t) ∧
                            table t = inr team' ∧ k ∈ Members team')
    as [Hmid1 Hmid2].
  { destruct creator as [cr|]; cbn.
    - split; [by apply onlyTrue_delete|]. intros k.
      rewrite lookup_delete_Some, (Hcrtm k), lookup_empty. split.
      + intros [Hne [?|H]]; [done|]. split; [congruence|done].
      + intros [Hne H]. split; [congruence|by right].
    - split; [done|]. intros k. rewrite (Hcrtm k), lookup_empty. split.
      + intros [?|H]; [done|]. by split.
      + intros [_ H]. by right. }
  split; [|split].
  - destruct (ro !! name) as [v|] eqn:Hname; [|done].
    assert (ro !! name = Some true) as Htrue by (by rewrite Hname, (Hro1 name v Hname)).
    apply Hro2 in Htrue as (_ & g & e & _ & _ & He). congruence.
  - intros k. by rewrite (onlyTrue_is_Some ro k Hro1), Hro2.
  - intros k. rewrite Hrtm. unfold dropOwners. rewrite foldl_delete_lookup.
    case_bool_decide as Hk.
    + split; [by intros [? ?]|]. intros [Hnone _]. by apply Hkeys in Hk.
    + assert (ro !! k = None) as Hnone.
      { destruct (ro !! k) eqn:E; [|done]. exfalso. apply Hk, Hkeys. congruence. }
      rewrite (onlyTrue_is_Some _ k Hmid1), Hmid2. split.
      * intros [Hne H]. by repeat split.
      * intros (_ & Hne & H). by split.
Qed.

(** *** [getReviewers] leaves the pull request alone *)

(** X3. [getReviewers] never touches the pull request: whatever the stores
    answer, it has added no reviewer, posted no comment and fired no
    hook. *)
Theorem getReviewers_never_mutates {W} (rt : Runtime W) (a : AutoReviewer W)
    (pr : PullRequest) (st : State W) :
  mutations (trace (getReviewers rt a pr st).2) = mutations (trace st).
Proof.
  unfold getReviewers, bind.
  pose proof (resolvePools_quiet rt a pr st) as Hresolve.
  destruct (resolvePools rt a pr st) as [[[e|[ro rtm]]|e] st1]; cbn [snd] in *;
    [exact Hresolve| |exact Hresolve].
  rewrite selectReviewers_quiet. exact Hresolve.
Qed.

(** *** These statements at work on the simulated platform *)

Lemma getReviewers_required_then_optional_empty_witness :
  getReviewers Sim.runtime Sim.reviewer Sim.pr7 (Sim.start Sim.wOwnersOnly)
    = (Ret (option_list (Some Sim.alice) ++ option_list None, [], None),
       mkState
         (Sim.mkWorld [] [Sim.bob; Sim.carol; Sim.alice]
            (Sim.groupsOf Sim.wOwnersOnly) [Sim.pr7] [] [] [] false)
         ([CallGetRequiredReviewerGroups 7; CallGetReviewerByADOID "id-bob";
           CallGetTeam "alice"; CallGetTeam "bob"] ++
          [CallPopLRUReviewer (getAliases Sim.runtime {["alice" := true]});
           CallPopLRUReviewer (getAliases Sim.runtime ∅)])) ∧
  ∀ required optional err st',
    getReviewers Sim.runtime Sim.reviewer Sim.pr7 (Sim.start Sim.wOwnersOnly)
      = (Ret (required, optional, err), st') →
    optional = [] ∧ (is_Some err → required = []).
Proof.
  apply (getReviewers_required_then_optional_empty Sim.runtime Sim.reviewer Sim.pr7
           (Sim.start Sim.wOwnersOnly)
           (mkState Sim.wOwnersOnly
              [CallGetRequiredReviewerGroups 7; CallGetReviewerByADOID "id-bob";
               CallGetTeam "alice"; CallGetTeam "bob"])
           {["alice" := true]} ∅ (Some Sim.alice) None None (Some ErrNotFound)
           (Sim.mkWorld [] [Sim.bob; Sim.carol; Sim.alice]
              (Sim.groupsOf Sim.wOwnersOnly) [Sim.pr7] [] [] [] false)).
  - vm_compute; reflexivity.
  - vm_compute; reflexivity.
  - vm_compute; reflexivity.
  - left. reflexivity.
  - right. exists ErrNotFound. split; [reflexivity|constructor].
Defined.

Lemma default_filters_master_branch_only_witness :
  shouldFilter Sim.reviewer Sim.prFeature = true ∧
  filterMasterBranchOnly Sim.runtime Sim.prShouting = false ∧
  shouldFilter Sim.reviewer Sim.prFeature = true ∧
  filterMasterBranchOnly Sim.runtime Sim.prShouting = false.
Proof.
  destruct (default_filters_master_branch_only Sim.runtime Sim.gitClient
              defaultBotIdentifier Sim.repo Sim.repositoryStore Sim.reviewerStore
              Sim.teamStore (Some [Sim.notify]) Sim.prFeature)
    as (Hout & _ & Hascii).
  destruct (default_filters_master_branch_only Sim.runtime Sim.gitClient
              defaultBotIdentifier Sim.repo Sim.repositoryStore Sim.reviewerStore
              Sim.teamStore (Some [Sim.notify]) Sim.prShouting)
    as (_ & Hin & Hascii').
  split; [apply Hout; reflexivity|].
  split; [apply Hin; reflexivity|].
  split.
  - apply (proj1 (Hascii eq_refl)). vm_compute. discriminate.
  - apply (proj2 (Hascii' eq_refl)). reflexivity.
Defined.


Lemma resolvePools_skips_team_named_owner_witness :
  ∃ ro rtm st',
    resolvePools Sim.runtime Faults.withRoster Sim.pr7 (Sim.start Faults.wMixed)
      = (Ret (inr (ro, rtm)), st') ∧
    (ro !! "alice" = Some true ∧ rtm !! "dave" = Some true ∧
     ro !! "carol" = None ∧ rtm !! "carol" = None ∧ rtm !! "alice" = None) ∧
    ro !! "Platform" = None ∧
    (∀ k, is_Some (ro !! k) ↔
          Alias <$> Some Sim.bob ≠ Some k ∧
          ∃ g e, Some g ∈ Sim.groupsOf Faults.wMixed ∧ is_Some (Owners g !! k) ∧
                 Faults.rosterOf k = inl e) ∧
    (∀ k, is_Some (rtm !! k) ↔
          ro !! k = None ∧ Alias <$> Some Sim.bob ≠ Some k ∧
          ∃ g t team', Some g ∈ Sim.groupsOf Faults.wMixed ∧ is_Some (Teams g !! t) ∧
                       Faults.rosterOf t = inr team' ∧ k ∈ Members team').
Proof.
  eexists _, _, _. split; [vm_compute; reflexivity|].
  split; [vm_compute; repeat split|].
  eapply (resolvePools_skips_team_named_owner Sim.runtime Faults.withRoster
            Faults.rosterOf Sim.pr7 (Sim.start Faults.wMixed) _ _ _
            (Sim.groupsOf Faults.wMixed) Faults.wMixed Faults.wMixed
            (Some Sim.bob) None "Platform" (mkTeam "Platform" ["alice"; "carol"])).
  - intros m. reflexivity.
  - intros name w. reflexivity.
  - reflexivity.
  - reflexivity.
  - vm_compute; reflexivity.
  - reflexivity.
Defined.
